(** * wormlab3d: camera models, triangulation and tumble-run approximation

    A shallow embedding of

    - [wormlab3d/toolkit/pinhole_camera.py]   (module [PinholeCamera]),
    - [wormlab3d/midlines3d/dynamic_cameras.py] (module [DynamicCameras]),
    - [wormlab3d/toolkit/triangulate.py]      (module [Triangulate]),
    - the tumble-run approximator of the specification (module [TumbleRun]).

    Numbers: the Python code computes with float64 (numpy, torch).  They are
    embedded as the real numbers [R]; rounding, overflow, infinities and NaN
    are not part of this model.  The one place where the code itself uses an
    infinity ([best_err = np.inf]) is modelled with an explicit extra value. *)

From Stdlib Require Import Reals Lra Lia List Arith ZArith Bool.
From Stdlib Require Import Sorting.Sorted Sorting.Permutation.
Import ListNotations.

(** ** Exceptions and results *)

(** A float that may be [np.inf]. *)
Inductive ExtR : Type :=
| Finite (r : R)
| Inf.

(** What a [ValueError] of this code base says. *)
Inductive message : Type :=
| ZeroPointsBelowThreshold (best_err : ExtR) (matching_threshold : R)
| UnpackMismatch.

Inductive exception : Type :=
| AssertionError
| IndexError
| RuntimeError
| ValueError (msg : message)
| PreconditionError.

Inductive result (A : Type) : Type :=
| Ok (a : A)
| Raise (e : exception).
Arguments Ok {A} a.
Arguments Raise {A} e.

Definition bind {A B : Type} (m : result A) (k : A -> result B) : result B :=
  match m with
  | Ok a => k a
  | Raise e => Raise e
  end.

Declare Scope result_scope.
Delimit Scope result_scope with result.
Notation "x <- m ;; k" := (bind m (fun x => k))
  (at level 61, m at next level, right associativity) : result_scope.
Notation "'assert!' b ;; k" := (if b then k else Raise AssertionError)
  (at level 61, b at next level, right associativity) : result_scope.

(** [[g(a) for a in l]] where [g] may raise: the first exception wins. *)
Fixpoint mapM {A B : Type} (g : A -> result B) (l : list A) : result (list B) :=
  match l with
  | [] => Ok []
  | a :: l' =>
      match g a with
      | Raise e => Raise e
      | Ok b => match mapM g l' with
                | Raise e => Raise e
                | Ok bs => Ok (b :: bs)
                end
      end
  end.

(** ** numpy arrays of rank 1 and 2 *)

Definition ndarray1 := list R.
Definition ndarray2 := list (list R).

Definition has_shape1 (n : nat) (v : ndarray1) : bool := length v =? n.
Definition has_shape2 (r c : nat) (m : ndarray2) : bool :=
  (length m =? r) && forallb (has_shape1 c) m.

Local Open Scope R_scope.

(** [v[i]] and [m[i, j]]. *)
Definition item (v : ndarray1) (i : nat) : R := nth i v 0.
Definition item2 (m : ndarray2) (i j : nat) : R := item (nth i m []) j.

Definition dot (u v : ndarray1) : R :=
  fold_right Rplus 0 (map (fun p => fst p * snd p) (combine u v)).

(** [np.matmul(m, v)] for a matrix and a vector. *)
Definition matmul (m : ndarray2) (v : ndarray1) : ndarray1 :=
  map (fun row => dot row v) m.

(** [u + v], elementwise. *)
Definition vadd (u v : ndarray1) : ndarray1 :=
  map (fun p => fst p + snd p) (combine u v).

(** [u - v], elementwise. *)
Definition vsub (u v : ndarray1) : ndarray1 :=
  map (fun p => fst p - snd p) (combine u v).

(** [np.linalg.norm(v)**2]. *)
Definition norm_sq (v : ndarray1) : R := (sqrt (dot v v)) ^ 2.

(** ** pinhole_camera.py *)

Module PinholeCamera.

Record t : Type := mk {
  pose : ndarray2;
  matrix : ndarray2;
  distortion : option ndarray1;
  rotation : ndarray2;
  translation : ndarray1;
  shift : option (R * R)
}.

(** [PinholeCamera.__init__] *)
Definition init (pose matrix : ndarray2) (distortion : option ndarray1)
    (shift : option (R * R)) : result t :=
  (assert! has_shape2 4 4 pose ;;
   assert! has_shape2 3 3 matrix ;;
   assert! match distortion with
           | Some d => has_shape1 5 d
           | None => true
           end ;;
   Ok {| pose := pose;
         matrix := matrix;
         distortion := distortion;
         rotation := map (firstn 3) (firstn 3 pose);
         translation := map (fun row => item row 3) (firstn 3 pose);
         shift := shift |})%result.

(** The tuple assignment of the distortion branch: both components are
    computed from the old [x] and [y]. *)
Definition distort_xy (k1 k2 p1 p2 k3 x y : R) : R * R :=
  let r2 := x * x + y * y in
  (x * (1 + r2 * (k1 + r2 * (k2 + k3 * r2)) + 2 * p1 * y) + p2 * (r2 + 2 * x * x),
   y * (1 + r2 * (k1 + r2 * (k2 + k3 * r2)) + 2 * p2 * x) + p1 * (r2 + 2 * y * y)).

(** [PinholeCamera.project_to_2d] *)
Definition project_to_2d (self : t) (image_point : ndarray1) (distort : bool)
    : result ndarray1 :=
  (assert! has_shape1 3 image_point ;;
   let x := vadd (matmul (rotation self) image_point) (translation self) in
   let '(x, y) := (item x 0 / item x 2, item x 1 / item x 2) in
   let fx := item2 (matrix self) 0 0 in
   let fy := item2 (matrix self) 1 1 in
   let '(x, y) :=
     match shift self with
     | Some s => (x + fst s / fx, y + snd s / fy)
     | None => (x, y)
     end in
   xy <- match distort, distortion self with
         | true, Some d =>
             match d with
             | [k1; k2; p1; p2; k3] => Ok (distort_xy k1 k2 p1 p2 k3 x y)
             | _ => Raise (ValueError UnpackMismatch)
             end
         | _, _ => Ok (x, y)
         end ;;
   let '(x, y) := xy in
   let cx := item2 (matrix self) 0 2 in
   let cy := item2 (matrix self) 1 2 in
   Ok [fx * x + cx; fy * y + cy])%result.

(** *** The projection pipeline in the words of the specification *)

(** Camera-frame coordinates [(X, Y, Z)] of a world point. *)
Definition camera_frame (self : t) (p : R * R * R) : R * R * R :=
  let '(a, b, c) := p in
  let r := rotation self in
  let tr := translation self in
  (item2 r 0 0 * a + item2 r 0 1 * b + item2 r 0 2 * c + item tr 0,
   item2 r 1 0 * a + item2 r 1 1 * b + item2 r 1 2 * c + item tr 1,
   item2 r 2 0 * a + item2 r 2 1 * b + item2 r 2 2 * c + item tr 2).

Definition spec_distortion (d : ndarray1) (xy : R * R) : R * R :=
  let '(x, y) := xy in
  let k1 := item d 0 in
  let k2 := item d 1 in
  let p1 := item d 2 in
  let p2 := item d 3 in
  let k3 := item d 4 in
  let r2 := x ^ 2 + y ^ 2 in
  let radial := 1 + k1 * r2 + k2 * r2 ^ 2 + k3 * r2 ^ 3 in
  (x * radial + 2 * p1 * x * y + p2 * (r2 + 2 * x ^ 2),
   y * radial + p1 * (r2 + 2 * y ^ 2) + 2 * p2 * x * y).

Definition spec_project (self : t) (p : R * R * R) (apply_distortion : bool)
    : R * R :=
  let '(X, Y, Z) := camera_frame self p in
  let fx := item2 (matrix self) 0 0 in
  let fy := item2 (matrix self) 1 1 in
  let cx := item2 (matrix self) 0 2 in
  let cy := item2 (matrix self) 1 2 in
  let xy := (X / Z, Y / Z) in
  let xy :=
    match shift self with
    | Some (s0, s1) => (fst xy + s0 / fx, snd xy + s1 / fy)
    | None => xy
    end in
  let xy :=
    match apply_distortion, distortion self with
    | true, Some d => spec_distortion d xy
    | _, _ => xy
    end in
  (fx * fst xy + cx, fy * snd xy + cy).

End PinholeCamera.

(** ** dynamic_cameras.py *)

(** A torch tensor: its shape and its entries by multi-index.  Entries
    outside the shape are never read by a well-shaped program. *)
Record Tensor : Type := mkTensor {
  shape : list nat;
  data : list nat -> R
}.

Definition dim (t : Tensor) : nat := length (shape t).
Definition size (t : Tensor) (d : nat) : nat := nth d (shape t) 0%nat.
Definition ix (idx : list nat) (d : nat) : nat := nth d idx 0%nat.

(** [torch.zeros(shape)] *)
Definition zeros (s : list nat) : Tensor := mkTensor s (fun _ => 0).

(** Broadcasting along the batch dimension: a tensor whose batch size is 1
    is read at batch index 0 whatever the index asked for. *)
Definition bcast (n b : nat) : nat := if (n =? 1)%nat then 0%nat else b.

Module DynamicCameras.

Definition N_CAM_COEFFICIENTS : nat := 22.

Record t : Type := mk {
  distort : bool;
  fx : Tensor;
  fy : Tensor;
  cx : Tensor;
  cy : Tensor;
  rotation : Tensor;
  translation : Tensor;
  distortion : Tensor;
  shifts : Tensor
}.

Definition n_coeffs : nat := N_CAM_COEFFICIENTS.

(** [DynamicCameras.__init__] *)
Definition init (distort : bool) : t :=
  {| distort := distort;
     fx := zeros [0; 3; 1]%nat;
     fy := zeros [0; 3; 1]%nat;
     cx := zeros [0; 3; 1]%nat;
     cy := zeros [0; 3; 1]%nat;
     rotation := zeros [0; 3; 3; 3]%nat;
     translation := zeros [0; 3; 3]%nat;
     distortion := zeros [0; 3; 5]%nat;
     shifts := zeros [0; 3]%nat |}.

(** [coefficients[:, :, k].unsqueeze(dim=2)] *)
Definition column_unsqueezed (coefficients : Tensor) (k : nat) : Tensor :=
  mkTensor [size coefficients 0; 3; 1]%nat
           (fun idx => data coefficients [ix idx 0; ix idx 1; k]).

(** [coefficients[:, :, lo:hi]] *)
Definition columns (coefficients : Tensor) (lo hi : nat) : Tensor :=
  mkTensor [size coefficients 0; 3; hi - lo]%nat
           (fun idx => data coefficients [ix idx 0; ix idx 1; lo + ix idx 2]%nat).

(** [DynamicCameras.extract_coefficients]: the buffers of [self] are
    overwritten, the new object is returned. *)
Definition extract_coefficients (self : t) (coefficients : Tensor) : result t :=
  (assert! (dim coefficients =? 3)%nat ;;
   assert! (size coefficients 1 =? 3)%nat ;;
   assert! (size coefficients 2 =? n_coeffs)%nat ;;
   let bs := size coefficients 0 in
   Ok {| distort := distort self;
         fx := column_unsqueezed coefficients 0;
         fy := column_unsqueezed coefficients 1;
         cx := column_unsqueezed coefficients 2;
         cy := column_unsqueezed coefficients 3;
         rotation :=
           mkTensor [bs; 3; 3; 3]%nat
             (fun idx => data coefficients
                [ix idx 0; ix idx 1; 4 + (3 * ix idx 2 + ix idx 3)]%nat);
         translation := columns coefficients 13 16;
         distortion := columns coefficients 16 21;
         shifts :=
           mkTensor [bs; 3]%nat
             (fun idx => data coefficients [ix idx 0; ix idx 1; 21]%nat) |})%result.

(** [xyz = einsum('bcij,bpj->bcpi', rotation, points) + translation.unsqueeze(2)]
    at one index. *)
Definition xyz (self : t) (points : Tensor) (b c p i : nat) : R :=
  let bs := size (rotation self) 0 in
  fold_right Rplus 0
    (map (fun j => data (rotation self) [bcast bs b; c; i; j] * data points [b; p; j])
         (seq 0 3))
  + data (translation self) [bcast bs b; c; i].

(** [t[:, c, a] = v] on a tensor of rank 3 *)
Definition assign (t : Tensor) (c a : nat) (v : nat -> R) : Tensor :=
  mkTensor (shape t)
    (fun idx => if ((ix idx 1 =? c) && (ix idx 2 =? a))%nat
                then v (ix idx 0) else data t idx).

(** The [shifts] tensor built in [forward], before [unsqueeze(-1)]. *)
Definition shifts_tensor (self : t) (points : Tensor) : Tensor :=
  let bs := size (shifts self) 0 in
  let s := zeros [size points 0; 3; 2]%nat in
  let s := assign s 0 0 (fun b => data (shifts self) [bcast bs b; 0]%nat) in
  let s := assign s 1 1 (fun b => - data (shifts self) [bcast bs b; 1]%nat) in
  let s := assign s 2 1 (fun b => data (shifts self) [bcast bs b; 2]%nat) in
  s.

(** The normalised coordinates after the shift has been added. *)
Definition shifted_xy (self : t) (points : Tensor) (b c p : nat) : R * R :=
  let bs := size (fx self) 0 in
  let x := xyz self points b c p 0 / xyz self points b c p 2 in
  let y := xyz self points b c p 1 / xyz self points b c p 2 in
  let s := shifts_tensor self points in
  (x + data s [b; c; 0]%nat / data (fx self) [bcast bs b; c; 0]%nat,
   y + data s [b; c; 1]%nat / data (fy self) [bcast bs b; c; 0]%nat).

(** The [if self.distort] block at one index. *)
Definition distorted_xy (self : t) (b c : nat) (xy : R * R) : R * R :=
  if distort self then
    let bs := size (distortion self) 0 in
    let k i := data (distortion self) [bcast bs b; c; i] in
    let '(k1, k2, p1, p2, k3) := (k 0%nat, k 1%nat, k 2%nat, k 3%nat, k 4%nat) in
    let '(x, y) := xy in
    let xy := x * y in
    let r2 := x ^ 2 + y ^ 2 in
    let r4 := r2 * r2 in
    let r6 := r4 * r2 in
    let k_term := 1 + k1 * r2 + k2 * r4 + k3 * r6 in
    (x * k_term + 2 * p1 * xy + p2 * (r2 + 2 * x ^ 2),
     y * k_term + p1 * (r2 + 2 * y ^ 2) + 2 * p2 * xy)
  else xy.

(** [u] and [v] at one index. *)
Definition pixel (self : t) (b c : nat) (xy : R * R) : R * R :=
  let bs := size (fx self) 0 in
  (data (fx self) [bcast bs b; c; 0]%nat * fst xy + data (cx self) [bcast bs b; c; 0]%nat,
   data (fy self) [bcast bs b; c; 0]%nat * snd xy + data (cy self) [bcast bs b; c; 0]%nat).

(** [DynamicCameras.forward].  The batch sizes of [coefficients] and
    [points] must agree up to broadcasting: [einsum] accepts a batch of size
    1 on either side, the slice assignments into [shifts] only on the side
    of the coefficients. *)
Definition forward (self : t) (coefficients points : Tensor) : result (Tensor * t) :=
  (assert! (dim points =? 3)%nat ;;
   assert! (size points 2 =? 3)%nat ;;
   self <- extract_coefficients self coefficients ;;
   let bs := size coefficients 0 in
   if negb ((bs =? size points 0) || (bs =? 1))%nat then Raise RuntimeError
   else
     let out :=
       mkTensor [size points 0; 3; size points 1; 2]%nat
         (fun idx =>
            let b := ix idx 0 in
            let c := ix idx 1 in
            let p := ix idx 2 in
            let uv := pixel self b c
                        (distorted_xy self b c (shifted_xy self points b c p)) in
            if (ix idx 3 =? 0)%nat then fst uv else snd uv) in
     Ok (out, self))%result.

End DynamicCameras.

(** ** triangulate.py *)

Module Triangulate.

(** Modelled from the spec: the constant [CAMERA_IDXS] of the package's
    [__init__.py], which is not part of the sources at hand; the
    specification sums over the cameras 0..2 of a triplet. *)
Definition CAMERA_IDXS : list nat := [0; 1; 2]%nat.

(** Modelled from the spec: the [Cameras] document of the persistence layer,
    reduced to what [triangulate] reads: the optional scalar
    [reprojection_error] and [get_camera_model_triplet()]. *)
Record Cameras : Type := mkCameras {
  reprojection_error : option R;
  get_camera_model_triplet : list PinholeCamera.t
}.

(** Modelled from the spec: the [ObjectPoint] document, with the attributes
    [triangulate] assigns. *)
Record ObjectPoint : Type := mkObjectPoint {
  cameras : Cameras;
  point_3d : list R;
  error : R;
  source_point_idxs : list nat;
  reprojected_points_2d : option (list (list R))
}.

(** What [scipy.optimize.minimize] is given besides the objective, and what
    it hands back ([res.x] and [res.fun]). *)
Inductive method : Type := BFGS.

Record options : Type := mkOptions {
  maxiter : nat;
  gtol : R;
  disp : bool
}.

Record OptimizeResult : Type := mkOptimizeResult {
  x : ndarray1;
  fun_ : R
}.

(** One call of [minimize], as seen from outside. *)
Record call : Type := mkCall {
  call_x0 : ndarray1;
  call_args : list (list R);
  call_method : method;
  call_options : options;
  call_tol : option R
}.

(** The state of the [for point_key_combination in ...] loop, together with
    the calls of [minimize] made so far. *)
Record loop_state : Type := mkLoop {
  res_3d : list ObjectPoint;
  best_err : ExtR;
  calls : list call
}.

(** Python's [min(a, b)]: [b] if [b < a], otherwise [a]. *)
Definition min_ext (a : ExtR) (b : R) : ExtR :=
  match a with
  | Inf => Finite b
  | Finite a' => if Rlt_dec b a' then Finite b else Finite a'
  end.

(** [itertools.product] of the given lists: the last position varies
    fastest. *)
Fixpoint product {A : Type} (lists : list (list A)) : list (list A) :=
  match lists with
  | [] => [[]]
  | l :: rest => flat_map (fun a => map (cons a) (product rest)) l
  end.

(** [res_3d.sort(key=lambda r: r.error)]: a stable sort. *)
Fixpoint insert (r : ObjectPoint) (l : list ObjectPoint) : list ObjectPoint :=
  match l with
  | [] => [r]
  | h :: l' => if Rlt_dec (error h) (error r) then h :: insert r l'
               else r :: h :: l'
  end.

Definition sort (l : list ObjectPoint) : list ObjectPoint :=
  fold_right insert [] l.

(** [[r for r in res_3d if r.error < matching_threshold]] *)
Definition below (matching_threshold : R) (r : ObjectPoint) : bool :=
  if Rlt_dec (error r) matching_threshold then true else false.

Definition index_error {A : Type} (o : option A) : result A :=
  match o with
  | Some a => Ok a
  | None => Raise IndexError
  end.

(** The [points_2d] of one combination: the point of each of the three
    views that the combination selects.  The keys of a combination are in
    range by construction. *)
Definition points_2d_of (image_points : list (list (list R)))
    (point_key_combination : list nat) : list (list R) :=
  [ nth (nth 0 point_key_combination 0%nat) (nth 0 image_points []) [];
    nth (nth 1 point_key_combination 0%nat) (nth 1 image_points []) [];
    nth (nth 2 point_key_combination 0%nat) (nth 2 image_points []) [] ].

(** [if x0 is None: x0 = np.array((1., 1., 500.))] *)
Definition initial_guess (x0 : option ndarray1) : ndarray1 :=
  match x0 with
  | Some v => v
  | None => [1; 1; 500]
  end.

Section WithMinimizer.

(** [scipy.optimize.minimize] is a library function: it is a parameter of
    the model.  With BFGS it reports failure to converge in its result; it
    does not raise. *)
Variable minimize :
  (ndarray1 -> list (list R) -> result R) ->
  ndarray1 -> list (list R) -> method -> options -> option R -> OptimizeResult.

(** The objective [f(x, pts)] of [triangulate]. *)
Definition f (cams_model : list PinholeCamera.t) (x : ndarray1)
    (pts : list (list R)) : result R :=
  (terms <- mapM (fun c =>
              cam <- index_error (nth_error cams_model c) ;;
              proj <- PinholeCamera.project_to_2d cam x true ;;
              pt <- index_error (nth_error pts c) ;;
              Ok (norm_sq (vsub proj pt)))
            CAMERA_IDXS ;;
   Ok (sqrt (fold_left Rplus terms 0)))%result.

(** The options every call of [minimize] is given. *)
Definition bfgs_options : options :=
  {| maxiter := 1000; gtol := / 10 ^ 8; disp := false |}.

(** The body of the loop over the combinations. *)
Definition loop_body (image_points : list (list (list R))) (cameras : Cameras)
    (cams_model : list PinholeCamera.t) (x0 : ndarray1)
    (st : loop_state) (point_key_combination : list nat) : loop_state :=
  let points_2d := points_2d_of image_points point_key_combination in
  let opts := bfgs_options in
  let tol := reprojection_error cameras in
  let res := minimize (f cams_model) x0 points_2d BFGS opts tol in
  let obj_point :=
    {| cameras := cameras;
       point_3d := x res;
       error := fun_ res;
       source_point_idxs := point_key_combination;
       reprojected_points_2d := None |} in
  {| res_3d := res_3d st ++ [obj_point];
     best_err := min_ext (best_err st) (error obj_point);
     calls := calls st ++ [mkCall x0 points_2d BFGS opts tol] |}.

Definition point_key_combinations (image_points : list (list (list R)))
    : list (list nat) :=
  product (map (fun pts => seq 0 (length pts)) image_points).

(** The whole loop, from its initial state. *)
Definition solve_combinations (image_points : list (list (list R)))
    (cameras : Cameras) (x0 : ndarray1) : loop_state :=
  fold_left
    (loop_body image_points cameras (get_camera_model_triplet cameras) x0)
    (point_key_combinations image_points)
    {| res_3d := []; best_err := Inf; calls := [] |}.

(** The assertions at the head of [triangulate]. *)
Definition check_arguments (image_points : list (list (list R)))
    (x0 : option ndarray1) : bool :=
  (length image_points =? 3)%nat
  && forallb (forallb (has_shape1 2)) image_points
  && match x0 with
     | Some v => has_shape1 3 v
     | None => true
     end.

(** The re-projection of one surviving point. *)
Definition reproject (cams_model : list PinholeCamera.t) (r : ObjectPoint)
    : result ObjectPoint :=
  (pts <- mapM (fun c =>
            cam <- index_error (nth_error cams_model c) ;;
            PinholeCamera.project_to_2d cam (point_3d r) true)
          CAMERA_IDXS ;;
   Ok {| cameras := cameras r;
         point_3d := point_3d r;
         error := error r;
         source_point_idxs := source_point_idxs r;
         reprojected_points_2d := Some pts |})%result.

(** [triangulate], returning also the calls of [minimize] it made.  The
    [logger.debug] line is left out; the exception carries [best_err] and
    the threshold as numbers, where the Python message prints them. *)
Definition triangulate_traced (image_points : list (list (list R)))
    (cameras : Cameras) (x0 : option ndarray1) (matching_threshold : R)
    : result (list ObjectPoint) * list call :=
  if negb (check_arguments image_points x0) then (Raise AssertionError, [])
  else
    let cams_model := get_camera_model_triplet cameras in
    let x0 := initial_guess x0 in
    let st := solve_combinations image_points cameras x0 in
    let res_3d := filter (below matching_threshold) (res_3d st) in
    let res_3d := sort res_3d in
    match res_3d with
    | [] => (Raise (ValueError
                      (ZeroPointsBelowThreshold (best_err st) matching_threshold)),
             calls st)
    | _ :: _ => (mapM (reproject cams_model) res_3d, calls st)
    end.

(** [triangulate] *)
Definition triangulate (image_points : list (list (list R)))
    (cameras : Cameras) (x0 : option ndarray1) (matching_threshold : R)
    : result (list ObjectPoint) :=
  fst (triangulate_traced image_points cameras x0 matching_threshold).

End WithMinimizer.

(** *** Vocabulary for the properties of [triangulate] *)

(** An object point as it was before its re-projection was attached. *)
Definition forget (r : ObjectPoint) : ObjectPoint :=
  {| cameras := cameras r;
     point_3d := point_3d r;
     error := error r;
     source_point_idxs := source_point_idxs r;
     reprojected_points_2d := None |}.

(** The filter in the words of the specification: a candidate is removed
    when its error exceeds the threshold, the others remain. *)
Definition exceeds (matching_threshold : R) (r : ObjectPoint) : bool :=
  if Rlt_dec matching_threshold (error r) then true else false.

Definition spec_remaining (matching_threshold : R) (l : list ObjectPoint)
    : list ObjectPoint :=
  filter (fun r => negb (exceeds matching_threshold r)) l.

(** The filter as the specification words it, as a property of one call:
    what is returned is, up to order and re-projection, the candidates whose
    error does not exceed the threshold. *)
Definition returns_candidates_not_exceeding
    (minimize : (ndarray1 -> list (list R) -> result R) ->
                ndarray1 -> list (list R) -> method -> options -> option R ->
                OptimizeResult)
    (image_points : list (list (list R))) (cameras : Cameras)
    (x0 : option ndarray1) (matching_threshold : R) : Prop :=
  forall l,
    triangulate minimize image_points cameras x0 matching_threshold = Ok l ->
    Permutation (map forget l)
      (spec_remaining matching_threshold
         (res_3d (solve_combinations minimize image_points cameras
                    (initial_guess x0)))).

(** The order of the returned list. *)
Definition error_le (a b : ObjectPoint) : Prop := error a <= error b.

(** [b] is the least of the numbers [l], or infinity when there is none. *)
Definition minimum_of (b : ExtR) (l : list R) : Prop :=
  match b with
  | Inf => l = []
  | Finite m => In m l /\ Forall (fun e => m <= e) l
  end.

(** The object point the loop builds for one combination, and the call of
    [minimize] it makes for it. *)
Definition candidate
    (minimize : (ndarray1 -> list (list R) -> result R) ->
                ndarray1 -> list (list R) -> method -> options -> option R ->
                OptimizeResult)
    (image_points : list (list (list R))) (cameras : Cameras) (x0 : ndarray1)
    (point_key_combination : list nat) : ObjectPoint :=
  let res := minimize (f (get_camera_model_triplet cameras)) x0
               (points_2d_of image_points point_key_combination)
               BFGS bfgs_options (reprojection_error cameras) in
  {| cameras := cameras;
     point_3d := x res;
     error := fun_ res;
     source_point_idxs := point_key_combination;
     reprojected_points_2d := None |}.

Definition call_of (image_points : list (list (list R))) (cameras : Cameras)
    (x0 : ndarray1) (point_key_combination : list nat) : call :=
  mkCall x0 (points_2d_of image_points point_key_combination)
         BFGS bfgs_options (reprojection_error cameras).

(** The triples of keys of three views with [n0], [n1] and [n2] points. *)
Definition key_triples (n0 n1 n2 : nat) : list (list nat) :=
  flat_map (fun i =>
    flat_map (fun j => map (fun k => [i; j; k]) (seq 0 n2)) (seq 0 n1))
    (seq 0 n0).

(** *** Concrete data for examples *)

(** A camera at the origin looking along the z axis, without distortion or
    shift. *)
Definition example_camera : PinholeCamera.t :=
  let pose := [[1; 0; 0; 0]; [0; 1; 0; 0]; [0; 0; 1; 0]; [0; 0; 0; 1]] in
  {| PinholeCamera.pose := pose;
     PinholeCamera.matrix := [[2; 0; 3]; [0; 2; 4]; [0; 0; 1]];
     PinholeCamera.distortion := None;
     PinholeCamera.rotation := map (firstn 3) (firstn 3 pose);
     PinholeCamera.translation := map (fun row => item row 3) (firstn 3 pose);
     PinholeCamera.shift := None |}.

Definition example_cameras : Cameras :=
  {| reprojection_error := None;
     get_camera_model_triplet := [example_camera; example_camera; example_camera] |}.

(** A stand-in for the minimizer: it stays at the initial guess and reports
    the first coordinate of the point of view 0 as the objective value. *)
Definition example_minimize
    (fn : ndarray1 -> list (list R) -> result R) (x0 : ndarray1)
    (args : list (list R)) (m : method) (o : options) (tol : option R)
    : OptimizeResult :=
  {| x := x0; fun_ := item (nth 0 args []) 0 |}.

End Triangulate.

(** ** The tumble-run approximator *)

(** The module [wormlab3d/particles/tumble_run.py] is not among the sources
    at hand (only its callers in [scripts/particles/tumble_run.py] are), so
    every definition of this module is modelled from the specification. *)

Module TumbleRun.

Definition vec3 : Type := (R * R * R)%type.

Definition vsub3 (u v : vec3) : vec3 :=
  let '(a, b, c) := u in let '(a', b', c') := v in (a - a', b - b', c - c').
Definition vadd3 (u v : vec3) : vec3 :=
  let '(a, b, c) := u in let '(a', b', c') := v in (a + a', b + b', c + c').
Definition scale3 (s : R) (u : vec3) : vec3 :=
  let '(a, b, c) := u in (s * a, s * b, s * c).
Definition norm_sq3 (u : vec3) : R :=
  let '(a, b, c) := u in a * a + b * b + c * c.

Definition Rltb (a b : R) : bool := if Rlt_dec a b then true else false.
Definition Rleb (a b : R) : bool := if Rle_dec a b then true else false.

(** Modelled from the spec: the output of one approximation, "vertices,
    tumble indices, run durations, run speeds" together with the piecewise
    linear reconstruction [X_approx].  The turn angles and the frames per
    vertex are products of the external frame computation; the
    specification gives no formula for them and they are left out. *)
Record Approximation : Type := mkApproximation {
  X_approx : list vec3;
  vertices : list vec3;
  tumble_idxs : list nat;
  run_durations : list Z;
  run_speeds : list R
}.

(** Modelled from the spec: "local peaks in the curvature signal". *)
Definition is_peak (k : list R) (i : nat) : bool :=
  (1 <=? i)%nat && (i + 1 <? length k)%nat
  && Rltb (nth (i - 1) k 0) (nth i k 0)
  && Rltb (nth (i + 1) k 0) (nth i k 0).

Definition local_peaks (k : list R) : list nat :=
  filter (is_peak k) (seq 0 (length k)).

(** Modelled from the spec: "sort candidate peaks by prominence/height":
    the highest peak first, earlier peaks first among equal heights. *)
Fixpoint insert_peak (k : list R) (i : nat) (l : list nat) : list nat :=
  match l with
  | [] => [i]
  | h :: l' => if Rltb (nth h k 0) (nth i k 0) then i :: h :: l'
               else h :: insert_peak k i l'
  end.

Definition by_height (k : list R) (l : list nat) : list nat :=
  fold_right (insert_peak k) [] l.

(** Modelled from the spec: "greedily accept a peak only if it is >=
    distance steps from all previously accepted peaks, reject otherwise". *)
Definition far_enough (distance : Z) (accepted : list nat) (i : nat) : bool :=
  forallb (fun a => (distance <=? Z.abs (Z.of_nat i - Z.of_nat a))%Z) accepted.

Definition accept (distance : Z) (accepted : list nat) (i : nat) : list nat :=
  if far_enough distance accepted i then accepted ++ [i] else accepted.

(** Modelled from the spec: the peak finder with minimum spacing; the
    accepted peaks are handed back in the order of time. *)
Definition find_peaks (k : list R) (distance : Z) : list nat :=
  let accepted := fold_left (accept distance) (by_height k (local_peaks k)) [] in
  filter (fun i => existsb (Nat.eqb i) accepted) (local_peaks k).

(** Consecutive differences [l[1:] - l[:-1]]. *)
Fixpoint diffs (l : list Z) : list Z :=
  match l with
  | a :: (b :: _) as l' => (b - a)%Z :: diffs l'
  | _ => []
  end.

(** Modelled from the spec: "speed (Euclidean distance between vertices /
    duration)" for the runs between consecutive vertices. *)
Fixpoint speeds (vs : list vec3) (durations : list Z) : list R :=
  match vs, durations with
  | v0 :: (v1 :: _) as vs', d :: ds =>
      sqrt (norm_sq3 (vsub3 v1 v0)) / IZR d :: speeds vs' ds
  | _, _ => []
  end.

(** Modelled from the spec: "linearly interpolating between vertices at the
    original trajectory's time resolution". *)
Definition lerp (v0 v1 : vec3) (i0 i1 t : Z) : vec3 :=
  vadd3 v0 (scale3 (IZR (t - i0) / IZR (i1 - i0)) (vsub3 v1 v0)).

Fixpoint interpolate_at (t : Z) (idxs : list Z) (vs : list vec3) : vec3 :=
  match idxs, vs with
  | i0 :: (i1 :: _) as idxs', v0 :: (v1 :: _) as vs' =>
      if (t <=? i1)%Z then lerp v0 v1 i0 i1 t else interpolate_at t idxs' vs'
  | _, v :: _ => v
  | _, [] => (0, 0, 0)
  end.

(** Modelled from the spec: the reconstruction error
    [mean(sum((X - X_approx)^2, axis=-1))]. *)
Definition mse (X Xa : list vec3) : R :=
  fold_right Rplus 0 (map (fun p => norm_sq3 (vsub3 (fst p) (snd p))) (combine X Xa))
  / INR (length X).

(** The indices of the vertices: the first index, the tumbles, the last
    index. *)
Definition vertex_idxs (T : nat) (tumbles : list nat) : list Z :=
  match T with
  | O => []
  | S _ => 0%Z :: map Z.of_nat tumbles ++ [Z.of_nat T - 1]%Z
  end.

(** Modelled from the spec: the fixed-distance mode [get_approximate(X, k,
    distance)].  Mismatched lengths of [X] and [k] and a non-positive
    [distance] are precondition errors.  The tumble indices are the
    accepted peaks; the vertices are the positions at these indices "plus
    the trajectory's first and last points as bracketing endpoints"; the
    runs are the segments "between consecutive vertices".  A trajectory
    without any position has no endpoints and yields the empty
    approximation. *)
Definition get_approximate (X : list vec3) (k : list R) (distance : Z)
    : result Approximation :=
  if negb (length X =? length k)%nat then Raise PreconditionError
  else if (distance <=? 0)%Z then Raise PreconditionError
  else
    let tumbles := find_peaks k distance in
    let idxs := vertex_idxs (length X) tumbles in
    let vs := map (fun i => nth (Z.to_nat i) X (0, 0, 0)) idxs in
    let durations := diffs idxs in
    Ok {| X_approx :=
            map (fun t => interpolate_at (Z.of_nat t) idxs vs) (seq 0 (length X));
          vertices := vs;
          tumble_idxs := tumbles;
          run_durations := durations;
          run_speeds := speeds vs durations |}.


(** *** The error-limit search *)

(** The parameters a search resolves. *)
Record parameters : Type := mkParameters {
  distance : Z;
  height : R;
  smooth_e0 : nat;
  smooth_K : nat
}.

(** One evaluated candidate: its parameters, its approximation and the
    reconstruction error of the approximation. *)
Record candidate : Type := mkCandidate {
  params : parameters;
  approx : Approximation;
  error : R
}.

Inductive status : Type :=
| Converged        (* the error deviation is within the tolerance *)
| BracketClosed    (* the bracket cannot be narrowed any further *)
| Exhausted.       (* the iteration budget is used up *)

Inductive log_record : Type :=
| Warning (s : status).

Record search_result : Type := mkSearch {
  best : candidate;
  tried : list candidate;
  outcome : status
}.

Section Search.

(** Modelled from the spec: the sliding-window averages and the curvature
    computation are named by the specification but not defined by it (the
    handling of the window at the ends, the finite-difference scheme); they
    are parameters here, as is the tolerance of the search. *)
Variable smooth_trajectory : nat -> list vec3 -> list vec3.
Variable calculate_curvature : list vec3 -> list R.
Variable smooth_curvature : nat -> list R -> list R.
Variable tolerance : R.

Variable X : list vec3.
Variable e0_raw : list vec3.
Variable error_limit : R.

(** Modelled from the spec: smooth the heading, compute the curvature,
    smooth the curvature, run the fixed-distance mode and measure the
    reconstruction error. *)
Definition evaluate (p : parameters) : result candidate :=
  (let e0 := smooth_trajectory (smooth_e0 p) e0_raw in
   let k := smooth_curvature (smooth_K p) (calculate_curvature e0) in
   a <- get_approximate X k (distance p) ;;
   Ok {| params := p; approx := a; error := mse X (X_approx a) |})%result.

(** The "error deviation" of a candidate. *)
Definition deviation (c : candidate) : R := Rabs (error c - error_limit).

Definition better (c b : candidate) : candidate :=
  if Rltb (deviation c) (deviation b) then c else b.

(** Modelled from the spec: the bisection over the distance.  The bracket
    is [lo, hi]; [c] is the candidate just evaluated, [b] the best one so
    far, [seen] all the candidates so far.  "Larger distance -> higher
    error": an error above the limit moves the upper end of the bracket
    down to the candidate, an error below it moves the lower end up.  The
    search ends when the deviation is within the tolerance, when the
    bracket cannot be narrowed, or when the budget is used up. *)
Fixpoint bisect (budget : nat) (lo hi : Z) (c b : candidate)
    (seen : list candidate) : result search_result :=
  let b := better c b in
  let seen := seen ++ [c] in
  if Rleb (deviation c) tolerance then Ok (mkSearch c seen Converged)
  else
    match budget with
    | O => Ok (mkSearch b seen Exhausted)
    | S budget' =>
        let d := distance (params c) in
        let '(lo, hi) := if Rltb error_limit (error c) then (lo, d) else (d, hi) in
        if (hi - lo <=? 1)%Z then Ok (mkSearch b seen BracketClosed)
        else
          (let p := params c in
           c' <- evaluate (mkParameters ((lo + hi) / 2)%Z (height p)
                             (smooth_e0 p) (smooth_K p)) ;;
           bisect budget' lo hi c' b seen)%result
    end.



End Search.

(** *** Vocabulary for the properties of the search *)

(** What holds of every result of the bisection that started with the
    candidates [seen] already evaluated and [budget] iterations left: the
    best candidate is one of those tried and deviates least from the limit,
    every candidate tried is the evaluation of its own parameters, and the
    status says why the search ended. *)
Definition search_post
    (smooth_trajectory : nat -> list vec3 -> list vec3)
    (calculate_curvature : list vec3 -> list R)
    (smooth_curvature : nat -> list R -> list R)
    (tolerance : R) (X e0_raw : list vec3) (error_limit : R)
    (budget : nat) (seen : list candidate) (s : search_result) : Prop :=
  let evaluate := evaluate smooth_trajectory calculate_curvature
                    smooth_curvature X e0_raw in
  let deviation := deviation error_limit in
  In (best s) (tried s)
  /\ Forall (fun c => deviation (best s) <= deviation c) (tried s)
  /\ Forall (fun c => evaluate (params c) = Ok c) (tried s)
  /\ (length (tried s) <= length seen + budget + 1)%nat
  /\ (outcome s = Exhausted ->
      length (tried s) = (length seen + budget + 1)%nat
      /\ Forall (fun c => tolerance < deviation c) (tried s))
  /\ (outcome s = Converged -> deviation (best s) <= tolerance).

(** *** Vocabulary for the properties of [get_approximate] *)


End TumbleRun.

(** ** Pinhole cameras described by coefficient rows *)

Module CameraBridge.






End CameraBridge.

(** ** plot_triangulations.py *)

Module PlotTriangulations.

Definition MAX_RESULTS : nat := 5.

(** [logger.warning(f'Triangulation failed: {e}')] *)
Inductive log_record : Type :=
| TriangulationFailed (e : exception).

Section WithMinimizer.

Variable minimize :
  (ndarray1 -> list (list R) -> result R) ->
  ndarray1 -> list (list R) -> Triangulate.method -> Triangulate.options ->
  option R -> Triangulate.OptimizeResult.

(** The body of [for cameras in exp_cameras]: [triangulate] is called with
    its default initial guess and threshold; what it returns extends
    [cameras_res], and whatever it raises is caught and logged. *)
Definition try_cameras (centres : list (list (list R)))
    (acc : list Triangulate.ObjectPoint * list log_record)
    (cameras : Triangulate.Cameras)
    : list Triangulate.ObjectPoint * list log_record :=
  match Triangulate.triangulate minimize centres cameras None 1000 with
  | Ok res_3d => (fst acc ++ res_3d, snd acc)
  | Raise e => (fst acc, snd acc ++ [TriangulationFailed e])
  end.

(** The part of [plot_triangulations] that computes [cameras_res] (and the
    warnings it logs) from the centres found in the three views and the
    cameras of the experiment: triangulate with every [Cameras], sort all
    the results by error, keep the first [MAX_RESULTS]. *)
Definition triangulate_all (centres : list (list (list R)))
    (exp_cameras : list Triangulate.Cameras)
    : list Triangulate.ObjectPoint * list log_record :=
  if (length centres =? 3)%nat then
    let acc := fold_left (try_cameras centres) exp_cameras ([], []) in
    (firstn MAX_RESULTS (Triangulate.sort (fst acc)), snd acc)
  else ([], []).

(** Whether [triangulate] raises for these cameras. *)
Definition fails (centres : list (list (list R)))
    (cameras : Triangulate.Cameras) : bool :=
  match Triangulate.triangulate minimize centres cameras None 1000 with
  | Ok _ => false
  | Raise _ => true
  end.

End WithMinimizer.

End PlotTriangulations.

(** ** More vocabulary for [triangulate] *)

Module TriangulateOrder.

(** The object points whose error is exactly [e]. *)
Definition has_error (e : R) (r : Triangulate.ObjectPoint) : bool :=
  if Req_dec_T (Triangulate.error r) e then true else false.

(** A camera the constructor of [PinholeCamera] has built. *)
Definition constructed (cam : PinholeCamera.t) : Prop :=
  exists pose matrix distortion shift,
    PinholeCamera.init pose matrix distortion shift = Ok cam.

(** Collaborators that keep their contracts: the minimizer hands back a
    point of the shape of its initial guess (as [scipy.optimize.minimize]
    does), and the camera triplet holds three cameras that the constructor
    of [PinholeCamera] built. *)
Definition healthy
    (minimize : (ndarray1 -> list (list R) -> result R) ->
                ndarray1 -> list (list R) -> Triangulate.method ->
                Triangulate.options -> option R -> Triangulate.OptimizeResult)
    (cameras : Triangulate.Cameras) : Prop :=
  (forall fn guess args m o tol,
     length (Triangulate.x (minimize fn guess args m o tol)) = length guess)
  /\ length (Triangulate.get_camera_model_triplet cameras) = 3%nat
  /\ Forall constructed (Triangulate.get_camera_model_triplet cameras).

End TriangulateOrder.

(** ** rt_explorer.py: simulate_particle_trajectory *)

Module RTExplorer.

Definition vec3 : Type := TumbleRun.vec3.

(** [t[i]] on a tensor of rank 1 or on the rows of a tensor of rank 2, for
    an index that is never negative. *)
Definition index {A : Type} (t : list A) (i : nat) : result A :=
  match nth_error t i with
  | Some a => Ok a
  | None => Raise IndexError
  end.

(** The bounds of a slice [a:b] on [n] rows, as Python and torch resolve
    them: a negative bound counts from the end, and both are clipped to
    [0, n]. *)
Definition slice_bound (n idx : Z) : Z :=
  if (idx <? 0)%Z then Z.max (idx + n) 0 else Z.min idx n.

(** [e0_exp[a:b] = v] and, with no upper bound, [e0_exp[a:] = v]: the row
    [v] is written to every row of the slice. *)
Definition assign_rows (e0_exp : list vec3) (a : Z) (b : option Z) (v : vec3)
    : list vec3 :=
  let n := Z.of_nat (length e0_exp) in
  let lo := slice_bound n a in
  let hi := match b with
            | Some b => slice_bound n b
            | None => n
            end in
  map (fun p => if ((lo <=? Z.of_nat (fst p)) && (Z.of_nat (fst p) <? hi))%Z
                then v else snd p)
      (combine (seq 0 (length e0_exp)) e0_exp).

Section WithDtype.

(** The integer tensors [durations] and [pauses] have a dtype chosen by the
    caller; [wrap] is the wrap-around of sums in that dtype. *)
Variable wrap : Z -> Z.

Section Loop.

Variable n_steps : Z.
Variable speeds : list R.
Variable e0s : list vec3.
Variable pauses : list Z.

(** The [while step < n_steps] loop.  [i] goes up by one in every
    iteration, so the loop runs along the entries of [durations] from
    position [i] on, which is the list [rest]; when they are used up,
    [durations[i]] raises. *)
Fixpoint loop (rest : list Z) (i : nat) (step : Z) (e0 : vec3)
    (e0_exp : list vec3) : result (list vec3) :=
  if (step <? n_steps)%Z then
    match rest with
    | [] => Raise IndexError
    | run_steps :: rest' =>
        (run_speed <- index speeds i ;;
         if (wrap (step + run_steps) >? n_steps)%Z then
           Ok (assign_rows e0_exp step None (TumbleRun.scale3 run_speed e0))
         else
           let e0_exp :=
             assign_rows e0_exp step (Some (wrap (step + run_steps)))
               (TumbleRun.scale3 run_speed e0) in
           e0 <- index e0s i ;;
           pause_steps <- index pauses i ;;
           loop rest' (S i) (wrap (step + wrap (run_steps + pause_steps)))
             e0 e0_exp)%result
    end
  else Ok e0_exp.

End Loop.

(** [simulate_particle_trajectory].  [torch.zeros] refuses a negative
    number of rows. *)
Definition simulate_particle_trajectory (n_steps : Z) (durations : list Z)
    (speeds : list R) (e0s : list vec3) (pauses : list Z)
    : result (list vec3) :=
  (e0 <- index e0s 0 ;;
   if (n_steps <? 0)%Z then Raise RuntimeError
   else
     loop n_steps speeds e0s pauses durations 0 0%Z e0
       (repeat (0, 0, 0) (Z.to_nat n_steps)))%result.

End WithDtype.

(** *** Vocabulary for the properties of the simulation *)

(** The step at which run [j] starts: the runs and pauses before it added
    up. *)
Fixpoint start (durations pauses : list Z) (j : nat) : Z :=
  match j with
  | O => 0%Z
  | S j' => (start durations pauses j'
             + (nth j' durations 0%Z + nth j' pauses 0%Z))%Z
  end.

(** The heading the code uses during run [j]: [e0s[0]] for the first run
    and [e0s[j - 1]] for every later one. *)
Definition heading (e0s : list vec3) (j : nat) : vec3 :=
  match j with
  | O => nth 0 e0s (0, 0, 0)
  | S j' => nth j' e0s (0, 0, 0)
  end.

(** What row [r] of the result holds: the velocity of the run that covers
    step [r], or zero when [r] lies in a pause. *)
Definition row_ok (durations : list Z) (speeds : list R) (e0s : list vec3)
    (pauses : list Z) (r : Z) (v : vec3) : Prop :=
  (exists j, (j < length durations)%nat
     /\ (start durations pauses j <= r
         < start durations pauses j + nth j durations 0)%Z
     /\ v = TumbleRun.scale3 (nth j speeds 0) (heading e0s j))
  \/ (exists j, (j < length durations)%nat
        /\ (start durations pauses j + nth j durations 0 <= r
            < start durations pauses (S j))%Z
        /\ v = (0, 0, 0)).

(** The wrap-around of 32-bit signed integers. *)
Definition wrap32 (z : Z) : Z := ((z + 2 ^ 31) mod 2 ^ 32 - 2 ^ 31)%Z.

End RTExplorer.

(** ** wormlab3d/postures/cpca.py: normalize_peakplane *)

Module CPCA.

(** What numpy raises in [normalize_peakplane]. *)
Inductive numpy_error : Type :=
| BroadcastError      (* ValueError: operands could not be broadcast together *)
| EmptyArgmax         (* ValueError: attempt to get argmax of an empty sequence *)
| IndexOutOfBounds.   (* IndexError *)

Definition outcome (A : Type) : Type := (numpy_error + A)%type.

Definition returns {A : Type} (a : A) : outcome A := inr a.
Definition raises {A : Type} (e : numpy_error) : outcome A := inl e.

Definition and_then {A B : Type} (m : outcome A) (k : A -> outcome B)
    : outcome B :=
  match m with
  | inl e => inl e
  | inr a => k a
  end.

(** An operation on two arrays of rank 1, entry by entry.  numpy broadcasts
    an array of one entry against the other array and refuses any other
    pair of different lengths. *)
Definition broadcast2 (f : R -> R -> R) (a b : list R) : outcome (list R) :=
  if (length a =? length b)%nat then
    returns (map (fun p => f (fst p) (snd p)) (combine a b))
  else if (length a =? 1)%nat then returns (map (f (hd 0 a)) b)
  else if (length b =? 1)%nat then returns (map (fun x => f x (hd 0 b)) a)
  else raises BroadcastError.

(** [np.argmax] returns the first position of the largest entry. *)
Fixpoint argmax_from (l : list R) (i best : nat) (best_value : R) : nat :=
  match l with
  | [] => best
  | x :: l' =>
      if Rlt_dec best_value x then argmax_from l' (S i) i x
      else argmax_from l' (S i) best best_value
  end.

Definition argmax (l : list R) : outcome nat :=
  match l with
  | [] => raises EmptyArgmax
  | x :: l' => returns (argmax_from l' 1 0 x)
  end.

Definition item (a : list R) (j : nat) : outcome R :=
  match nth_error a j with
  | Some x => returns x
  | None => raises IndexOutOfBounds
  end.

(** [np.arctan2 y x]: the angle of the point [(x, y)], in (-pi, pi]. *)
Definition arctan2 (y x : R) : R :=
  if Rlt_dec 0 x then atan (y / x)
  else if Rlt_dec x 0 then
    if Rle_dec 0 y then atan (y / x) + PI else atan (y / x) - PI
  else if Rlt_dec 0 y then PI / 2
  else if Rlt_dec y 0 then - (PI / 2)
  else 0.

(** The two ways the function is called: with the real and the imaginary
    parts as two real arrays, as load_cpca_from_file does, or with one
    complex array, a list of pairs (real part, imaginary part), and the
    default [m20 = []]. *)
Inductive arguments : Type :=
| Parts (m10 m20 : list R)
| ComplexArray (m10 : list (R * R)).

(** Lines 137-139: an empty [m20] is replaced by the imaginary part of
    [m10], which for a real array is an array of zeros, and [m10] by its
    real part. *)
Definition split_arguments (args : arguments) : list R * list R :=
  match args with
  | Parts m10 [] => (m10, map (fun _ => 0) m10)
  | Parts m10 m20 => (m10, m20)
  | ComplexArray m10 => (map fst m10, map snd m10)
  end.

Definition normalize_peakplane (args : arguments)
    : outcome (list R * list R * R) :=
  let '(m10, m20) := split_arguments args in
  and_then (broadcast2 (fun a b => a ^ 2 + b ^ 2) m10 m20) (fun sq =>
  and_then (argmax sq) (fun j =>
  and_then (item m20 j) (fun y =>
  and_then (item m10 j) (fun x =>
  let theta := arctan2 (- y) x in
  let st := sin theta in
  let ct := cos theta in
  and_then (broadcast2 (fun a b => ct * a - st * b) m10 m20) (fun m1 =>
  and_then (broadcast2 (fun a b => st * a + ct * b) m10 m20) (fun m2 =>
  returns (m1, m2, theta))))))).

End CPCA.

(** ** wormlab3d/preprocessing/video_reader.py: VideoReader *)

Module VideoReader.

Inductive error : Type :=
| IndexError
| AssertionError
| StopIteration
| UnboundLocalError.

Inductive outcome (A : Type) : Type :=
| Return (a : A)
| Raise (e : error).
Arguments Return {A} a.
Arguments Raise {A} e.

Definition and_then {A B : Type} (m : outcome A) (k : A -> outcome B)
    : outcome B :=
  match m with
  | Return a => k a
  | Raise e => Raise e
  end.

Section WithLibraries.

(** What pims, numpy, cv2 and the accumulator of create_bg_lp do is left
    open: a frame is any value with a shape. *)
Variable frame : Type.
Variable shape_of : frame -> list nat.
Variable as_grey : frame -> frame.                     (* VideoReader._as_grey *)
Variable invert : frame -> frame.                      (* VideoReader._invert *)
Variable subtract : frame -> frame -> outcome frame.   (* cv2.subtract *)
Variable negative_item : list frame -> Z -> outcome frame.
Variable frame_shape : list frame -> list nat.         (* video.frame_shape *)
Variable accumulator : Type.
Variable Accumulate : list nat -> accumulator.
Variable push : accumulator -> frame -> accumulator.
Variable get : accumulator -> frame.

(** The fields of a reader that the methods below use.  The video is a
    finite sequence of frames. *)
Record reader : Type := {
  video : list frame;
  background : option frame;
  current_frame : Z
}.

Definition set_current (self : reader) (idx : Z) : reader :=
  {| video := video self; background := background self;
     current_frame := idx |}.

(** [self.video[idx]]: past the last frame the index is refused; what pims
    does with a negative index is [negative_item]. *)
Definition video_item (v : list frame) (idx : Z) : outcome frame :=
  if (idx <? 0)%Z then negative_item v idx
  else match nth_error v (Z.to_nat idx) with
       | Some f => Return f
       | None => Raise IndexError
       end.

Definition len (self : reader) : Z := Z.of_nat (length (video self)).

Definition frame_size (self : reader) : list nat :=
  let shape := frame_shape (video self) in
  if (length shape =? 3)%nat then removelast shape else shape.

Definition getitem (self : reader) (idx : Z) : outcome frame :=
  and_then (video_item (video self) idx) (fun img => Return (as_grey img)).

(** [__next__]: the position moves only when the frame could be read. *)
Definition next (self : reader) : outcome (frame * reader) :=
  let next_frame := (current_frame self + 1)%Z in
  match getitem self next_frame with
  | Return img => Return (img, set_current self next_frame)
  | Raise IndexError => Raise StopIteration
  | Raise e => Raise e
  end.

Definition set_frame_num (self : reader) (idx : Z) : outcome reader :=
  if ((0 <=? idx) && (idx <=? len self))%Z then Return (set_current self idx)
  else Raise AssertionError.

(** [get_image].  The name [bg_inv] is bound only under [if invert]. *)
Definition get_image (self : reader) (invert_flag subtract_background : bool)
    : outcome frame :=
  and_then (getitem self (current_frame self)) (fun image =>
  let image := if invert_flag then invert image else image in
  if subtract_background then
    match background self with
    | None => Raise AssertionError
    | Some bg =>
        if list_eq_dec Nat.eq_dec (shape_of bg) (shape_of image) then
          and_then (if invert_flag then Return (invert bg)
                    else Raise UnboundLocalError)
                   (fun bg_inv => subtract image bg_inv)
        else Raise AssertionError
    end
  else Return image).

(** [for image in self: a.push(image)], with a bound on the number of
    calls of [__next__]; [None] when the bound is used up. *)
Fixpoint for_each_push (fuel : nat) (self : reader) (a : accumulator)
    : option (outcome (accumulator * reader)) :=
  match fuel with
  | O => None
  | S fuel' =>
      match next self with
      | Return (image, self') => for_each_push fuel' self' (push a image)
      | Raise StopIteration => Some (Return (a, self))
      | Raise e => Some (Raise e)
      end
  end.

Definition get_background (fuel : nat) (self : reader)
    : option (outcome (frame * reader)) :=
  let a := Accumulate (frame_size self) in
  let self := set_current self (-1) in
  match for_each_push fuel self a with
  | None => None
  | Some (Return (a, self)) => Some (Return (get a, self))
  | Some (Raise e) => Some (Raise e)
  end.

End WithLibraries.

End VideoReader.

(** * Properties *)

(** ** Shapes *)

Lemma has_shape1_inv3 (v : ndarray1) :
  has_shape1 3 v = true -> exists a b c, v = [a; b; c].
Proof.
  unfold has_shape1.
  destruct v as [|a [|b [|c [|d v]]]]; simpl; try discriminate.
  intros _. now exists a, b, c.
Qed.

Lemma has_shape1_inv4 (v : ndarray1) :
  has_shape1 4 v = true -> exists a b c d, v = [a; b; c; d].
Proof.
  unfold has_shape1.
  destruct v as [|a [|b [|c [|d [|e v]]]]]; simpl; try discriminate.
  intros _. now exists a, b, c, d.
Qed.

Lemma has_shape1_inv5 (v : ndarray1) :
  has_shape1 5 v = true -> exists a b c d e, v = [a; b; c; d; e].
Proof.
  unfold has_shape1.
  destruct v as [|a [|b [|c [|d [|e [|g v]]]]]]; simpl; try discriminate.
  intros _. now exists a, b, c, d, e.
Qed.

Lemma has_shape2_inv44 (m : ndarray2) :
  has_shape2 4 4 m = true ->
  exists r0 r1 r2 r3, m = [r0; r1; r2; r3]
    /\ has_shape1 4 r0 = true /\ has_shape1 4 r1 = true
    /\ has_shape1 4 r2 = true /\ has_shape1 4 r3 = true.
Proof.
  unfold has_shape2.
  destruct m as [|r0 [|r1 [|r2 [|r3 [|r4 m]]]]]; simpl; try discriminate.
  rewrite !andb_true_iff. intros (H0 & H1 & H2 & H3 & _).
  exists r0, r1, r2, r3. auto.
Qed.

Lemma has_shape2_inv33 (m : ndarray2) :
  has_shape2 3 3 m = true ->
  exists r0 r1 r2, m = [r0; r1; r2]
    /\ has_shape1 3 r0 = true /\ has_shape1 3 r1 = true
    /\ has_shape1 3 r2 = true.
Proof.
  unfold has_shape2.
  destruct m as [|r0 [|r1 [|r2 [|r3 m]]]]; simpl; try discriminate.
  rewrite !andb_true_iff. intros (H0 & H1 & H2 & _).
  exists r0, r1, r2. auto.
Qed.

(** What a successful [__init__] has checked. *)
Lemma init_inv pose matrix distortion shift self :
  PinholeCamera.init pose matrix distortion shift = Ok self ->
  has_shape2 4 4 pose = true
  /\ has_shape2 3 3 matrix = true
  /\ match distortion with Some d => has_shape1 5 d = true | None => True end
  /\ self = PinholeCamera.mk pose matrix distortion
              (map (firstn 3) (firstn 3 pose))
              (map (fun row => item row 3) (firstn 3 pose)) shift.
Proof.
  unfold PinholeCamera.init.
  destruct (has_shape2 4 4 pose); [|discriminate].
  destruct (has_shape2 3 3 matrix); [|discriminate].
  destruct distortion as [d|].
  - destruct (has_shape1 5 d); [|discriminate].
    intros H; inversion H; auto.
  - intros H; inversion H; auto.
Qed.

Ltac shape_inv :=
  repeat match goal with
  | H : has_shape2 4 4 _ = true |- _ =>
      apply has_shape2_inv44 in H;
      destruct H as (? & ? & ? & ? & ? & ? & ? & ? & ?); subst
  | H : has_shape2 3 3 _ = true |- _ =>
      apply has_shape2_inv33 in H;
      destruct H as (? & ? & ? & ? & ? & ? & ?); subst
  | H : has_shape1 3 _ = true |- _ =>
      apply has_shape1_inv3 in H; destruct H as (? & ? & ? & ?); subst
  | H : has_shape1 4 _ = true |- _ =>
      apply has_shape1_inv4 in H; destruct H as (? & ? & ? & ? & ?); subst
  | H : has_shape1 5 _ = true |- _ =>
      apply has_shape1_inv5 in H; destruct H as (? & ? & ? & ? & ? & ?); subst
  end.

(** ** PinholeCamera *)

(** The code's nested form of the distortion polynomial is the spec's
    expanded one. *)
Lemma distort_xy_spec k1 k2 p1 p2 k3 x y :
  PinholeCamera.distort_xy k1 k2 p1 p2 k3 x y
  = PinholeCamera.spec_distortion [k1; k2; p1; p2; k3] (x, y).
Proof.
  unfold PinholeCamera.distort_xy, PinholeCamera.spec_distortion, item.
  simpl. f_equal; ring.
Qed.

(** C4. For a camera accepted by the constructor and a 3D point whose
    camera-frame Z coordinate is nonzero, [project_to_2d] returns the
    pipeline of the specification: rotate and translate, divide by Z, add
    shift[0]/fx and shift[1]/fy when a shift is present, apply the radial
    and tangential distortion when it is requested and present, and map to
    (fx x' + cx, fy y' + cy). *)
Theorem project_to_2d_is_spec_pipeline
    pose matrix distortion shift self (a b c : R) (distort : bool) X Y Z :
  PinholeCamera.init pose matrix distortion shift = Ok self ->
  PinholeCamera.camera_frame self (a, b, c) = (X, Y, Z) ->
  Z <> 0 ->
  PinholeCamera.project_to_2d self [a; b; c] distort
  = Ok [fst (PinholeCamera.spec_project self (a, b, c) distort);
        snd (PinholeCamera.spec_project self (a, b, c) distort)].
Proof.
  intros Hinit Hframe _.
  apply init_inv in Hinit. destruct Hinit as (Hp & Hm & Hd & ->).
  shape_inv.
  unfold PinholeCamera.project_to_2d, PinholeCamera.spec_project,
    PinholeCamera.camera_frame in *.
  cbn [PinholeCamera.rotation PinholeCamera.translation PinholeCamera.matrix
       PinholeCamera.shift PinholeCamera.distortion has_shape1 length Nat.eqb
       firstn map matmul vadd combine dot fold_right item item2 nth fst snd
       bind] in *.
  assert (Hxyz :
    forall u v w t, (u * a + (v * b + (w * c + 0)) + t) = u * a + v * b + w * c + t)
    by (intros; ring).
  rewrite !Hxyz.
  destruct shift as [[s0 s1]|]; destruct distort; destruct distortion as [d|];
    cbn [fst snd bind]; shape_inv; cbn [bind];
    try rewrite distort_xy_spec; cbn [fst snd]; reflexivity.
Qed.

Lemma project_to_2d_is_spec_pipeline_witness :
  let pose := [[1; 0; 0; 0]; [0; 1; 0; 0]; [0; 0; 1; 0]; [0; 0; 0; 1]] in
  let matrix := [[2; 0; 3]; [0; 2; 4]; [0; 0; 1]] in
  let self :=
    PinholeCamera.mk pose matrix (Some [1; 0; 0; 0; 0])
      (map (firstn 3) (firstn 3 pose))
      (map (fun row => item row 3) (firstn 3 pose)) (Some (1, 1)) in
  PinholeCamera.project_to_2d self [1; 2; 3] true
  = Ok [fst (PinholeCamera.spec_project self (1, 2, 3) true);
        snd (PinholeCamera.spec_project self (1, 2, 3) true)].
Proof.
  intros pose matrix self.
  eapply (project_to_2d_is_spec_pipeline pose matrix (Some [1; 0; 0; 0; 0])
            (Some (1, 1)) self 1 2 3 true).
  - reflexivity.
  - reflexivity.
  - cbn. lra.
Defined.




(** ** DynamicCameras *)

(** What [extract_coefficients] stores, when its assertions pass. *)
Lemma extract_coefficients_inv self coefficients self' :
  DynamicCameras.extract_coefficients self coefficients = Ok self' ->
  dim coefficients = 3%nat /\ size coefficients 1 = 3%nat
  /\ size coefficients 2 = 22%nat
  /\ self' =
     DynamicCameras.mk (DynamicCameras.distort self)
       (DynamicCameras.column_unsqueezed coefficients 0)
       (DynamicCameras.column_unsqueezed coefficients 1)
       (DynamicCameras.column_unsqueezed coefficients 2)
       (DynamicCameras.column_unsqueezed coefficients 3)
       (mkTensor [size coefficients 0; 3; 3; 3]%nat
          (fun idx => data coefficients
             [ix idx 0; ix idx 1; 4 + (3 * ix idx 2 + ix idx 3)]%nat))
       (DynamicCameras.columns coefficients 13 16)
       (DynamicCameras.columns coefficients 16 21)
       (mkTensor [size coefficients 0; 3]%nat
          (fun idx => data coefficients [ix idx 0; ix idx 1; 21]%nat)).
Proof.
  unfold DynamicCameras.extract_coefficients, DynamicCameras.n_coeffs,
    DynamicCameras.N_CAM_COEFFICIENTS.
  destruct (Nat.eqb_spec (dim coefficients) 3); [|discriminate].
  destruct (Nat.eqb_spec (size coefficients 1) 3); [|discriminate].
  destruct (Nat.eqb_spec (size coefficients 2) 22); [|discriminate].
  intros H; inversion H; auto.
Qed.

(** C7. Projection fails with an assertion error (the spec's ShapeError)
    whenever the last dimension of the coefficients is not 22 or their
    camera dimension is not 3; and whenever the coefficients have shape
    Batch x 3 x 22 they are unpacked into fx, fy, cx, cy, the rotation, the
    translation, the distortion and the shift, read from the columns 0, 1,
    2, 3, 4..12, 13..15, 16..20 and 21. *)
Theorem extract_coefficients_shape (self : DynamicCameras.t)
    (coefficients points : Tensor) :
  (size coefficients 2 <> 22%nat \/ size coefficients 1 <> 3%nat ->
     DynamicCameras.extract_coefficients self coefficients = Raise AssertionError
     /\ DynamicCameras.forward self coefficients points = Raise AssertionError)
  /\ (forall B, shape coefficients = [B; 3; 22]%nat ->
      exists self',
        DynamicCameras.extract_coefficients self coefficients = Ok self'
        /\ DynamicCameras.distort self' = DynamicCameras.distort self
        /\ shape (DynamicCameras.fx self') = [B; 3; 1]%nat
        /\ shape (DynamicCameras.fy self') = [B; 3; 1]%nat
        /\ shape (DynamicCameras.cx self') = [B; 3; 1]%nat
        /\ shape (DynamicCameras.cy self') = [B; 3; 1]%nat
        /\ shape (DynamicCameras.rotation self') = [B; 3; 3; 3]%nat
        /\ shape (DynamicCameras.translation self') = [B; 3; 3]%nat
        /\ shape (DynamicCameras.distortion self') = [B; 3; 5]%nat
        /\ shape (DynamicCameras.shifts self') = [B; 3]%nat
        /\ forall b c : nat,
             data (DynamicCameras.fx self') [b; c; 0]%nat
               = data coefficients [b; c; 0]%nat
             /\ data (DynamicCameras.fy self') [b; c; 0]%nat
                  = data coefficients [b; c; 1]%nat
             /\ data (DynamicCameras.cx self') [b; c; 0]%nat
                  = data coefficients [b; c; 2]%nat
             /\ data (DynamicCameras.cy self') [b; c; 0]%nat
                  = data coefficients [b; c; 3]%nat
             /\ (forall i j : nat,
                   data (DynamicCameras.rotation self') [b; c; i; j]
                   = data coefficients [b; c; 4 + (3 * i + j)]%nat)
             /\ (forall i : nat,
                   data (DynamicCameras.translation self') [b; c; i]
                   = data coefficients [b; c; 13 + i]%nat)
             /\ (forall i : nat,
                   data (DynamicCameras.distortion self') [b; c; i]
                   = data coefficients [b; c; 16 + i]%nat)
             /\ data (DynamicCameras.shifts self') [b; c]
                  = data coefficients [b; c; 21]%nat).
Proof.
  split.
  - intros Hbad.
    assert (He : DynamicCameras.extract_coefficients self coefficients
                 = Raise AssertionError).
    { unfold DynamicCameras.extract_coefficients, DynamicCameras.n_coeffs,
        DynamicCameras.N_CAM_COEFFICIENTS.
      destruct (dim coefficients =? 3)%nat; [|reflexivity].
      destruct (Nat.eqb_spec (size coefficients 1) 3); [|reflexivity].
      destruct (Nat.eqb_spec (size coefficients 2) 22); [|reflexivity].
      destruct Hbad; contradiction. }
    split; [exact He|].
    unfold DynamicCameras.forward.
    destruct (dim points =? 3)%nat; [|reflexivity].
    destruct (size points 2 =? 3)%nat; [|reflexivity].
    rewrite He. reflexivity.
  - intros B Hshape.
    unfold DynamicCameras.extract_coefficients, DynamicCameras.n_coeffs,
      DynamicCameras.N_CAM_COEFFICIENTS, dim, size.
    rewrite Hshape. cbn [length nth Nat.eqb].
    eexists. split; [reflexivity|].
    cbn. unfold size. rewrite Hshape. cbn.
    repeat split; reflexivity.
Qed.

Lemma extract_coefficients_shape_witness :
  DynamicCameras.forward (DynamicCameras.init true)
    (mkTensor [2; 3; 21]%nat (fun _ => 1)) (zeros [2; 5; 3]%nat)
  = Raise AssertionError
  /\ exists self',
       DynamicCameras.extract_coefficients (DynamicCameras.init true)
         (mkTensor [2; 3; 22]%nat (fun idx => INR (ix idx 2))) = Ok self'
       /\ data (DynamicCameras.shifts self') [1; 2]%nat = INR 21.
Proof.
  split.
  - apply (extract_coefficients_shape (DynamicCameras.init true)
             (mkTensor [2; 3; 21]%nat (fun _ => 1)) (zeros [2; 5; 3]%nat)).
    left. cbn. lia.
  - destruct (proj2 (extract_coefficients_shape (DynamicCameras.init true)
                       (mkTensor [2; 3; 22]%nat (fun idx => INR (ix idx 2)))
                       (zeros [2; 5; 3]%nat)) 2%nat eq_refl)
      as (self' & He & _ & _ & _ & _ & _ & _ & _ & _ & _ & Hdata).
    exists self'. split; [exact He|].
    apply (Hdata 1%nat 2%nat).
Defined.

(** What a successful [forward] returns. *)
Lemma forward_inv self coefficients points out self' :
  DynamicCameras.forward self coefficients points = Ok (out, self') ->
  DynamicCameras.extract_coefficients self coefficients = Ok self'
  /\ out =
     mkTensor [size points 0; 3; size points 1; 2]%nat
       (fun idx =>
          let b := ix idx 0 in
          let c := ix idx 1 in
          let p := ix idx 2 in
          let uv := DynamicCameras.pixel self' b c
                      (DynamicCameras.distorted_xy self' b c
                         (DynamicCameras.shifted_xy self' points b c p)) in
          if (ix idx 3 =? 0)%nat then fst uv else snd uv).
Proof.
  unfold DynamicCameras.forward.
  destruct (dim points =? 3)%nat; [|discriminate].
  destruct (size points 2 =? 3)%nat; [|discriminate].
  destruct (DynamicCameras.extract_coefficients self coefficients)
    as [s|e]; [|discriminate].
  cbn [bind].
  destruct (negb _); [discriminate|].
  intros H; inversion H; subst. auto.
Qed.

(** C6. In [forward] the shift of camera 1 enters with a minus sign and the
    shifts of cameras 0 and 2 with a plus sign: camera 0 gets
    [+ shift / fx] on its normalised x coordinate, camera 1 gets
    [- shift / fy] on its normalised y coordinate, camera 2 gets
    [+ shift / fy] on its normalised y coordinate, and the other coordinate
    of each camera is left as it is.  The output tensor holds the pixel
    coordinates computed from these shifted coordinates. *)
Theorem forward_shift_signs (self : DynamicCameras.t)
    (coefficients points out : Tensor) (self' : DynamicCameras.t) :
  DynamicCameras.forward self coefficients points = Ok (out, self') ->
  forall b p : nat,
    let coef c k := data coefficients [bcast (size coefficients 0) b; c; k] in
    let x c := DynamicCameras.xyz self' points b c p 0
               / DynamicCameras.xyz self' points b c p 2 in
    let y c := DynamicCameras.xyz self' points b c p 1
               / DynamicCameras.xyz self' points b c p 2 in
    DynamicCameras.shifted_xy self' points b 0 p
      = (x 0%nat + coef 0%nat 21%nat / coef 0%nat 0%nat, y 0%nat)
    /\ DynamicCameras.shifted_xy self' points b 1 p
       = (x 1%nat, y 1%nat - coef 1%nat 21%nat / coef 1%nat 1%nat)
    /\ DynamicCameras.shifted_xy self' points b 2 p
       = (x 2%nat, y 2%nat + coef 2%nat 21%nat / coef 2%nat 1%nat)
    /\ forall c : nat,
         (data out [b; c; p; 0]%nat, data out [b; c; p; 1]%nat)
         = DynamicCameras.pixel self' b c
             (DynamicCameras.distorted_xy self' b c
                (DynamicCameras.shifted_xy self' points b c p)).
Proof.
  intros Hf b p.
  apply forward_inv in Hf. destruct Hf as (He & ->).
  apply extract_coefficients_inv in He.
  destruct He as (_ & _ & _ & ->).
  cbv zeta.
  unfold DynamicCameras.shifted_xy, DynamicCameras.shifts_tensor,
    DynamicCameras.assign, DynamicCameras.column_unsqueezed, zeros, size, ix.
  cbn [DynamicCameras.fx DynamicCameras.fy DynamicCameras.shifts shape data
       nth Nat.eqb andb].
  repeat split; f_equal; unfold Rdiv; ring.
Qed.

Lemma forward_shift_signs_witness :
  let coefficients := mkTensor [1; 3; 22]%nat (fun idx => INR (ix idx 2) + 1) in
  let points := mkTensor [1; 1; 3]%nat (fun _ => 1) in
  exists out self',
    DynamicCameras.forward (DynamicCameras.init true) coefficients points
    = Ok (out, self')
    /\ DynamicCameras.shifted_xy self' points 0 1 0
       = (DynamicCameras.xyz self' points 0 1 0 0
          / DynamicCameras.xyz self' points 0 1 0 2,
          DynamicCameras.xyz self' points 0 1 0 1
          / DynamicCameras.xyz self' points 0 1 0 2
          - (INR 21 + 1) / (INR 1 + 1)).
Proof.
  intros coefficients points.
  pose proof (forward_shift_signs (DynamicCameras.init true) coefficients
                points _ _ eq_refl 0%nat 0%nat) as H.
  eexists. eexists. split; [reflexivity|].
  apply H.
Defined.

(** ** triangulate: the combinations *)

Lemma flat_map_nil_fun {A B : Type} (g : A -> list B) (l : list A) :
  (forall a, g a = []) -> flat_map g l = [].
Proof.
  intros Hg. induction l as [|a l IH]; simpl; [reflexivity|].
  now rewrite Hg, IH.
Qed.

Lemma product_with_empty {A : Type} (lists : list (list A)) :
  In [] lists -> Triangulate.product lists = [].
Proof.
  induction lists as [|l rest IH]; simpl; [tauto|].
  intros [-> | Hin]; [reflexivity|].
  apply flat_map_nil_fun. intros a. now rewrite IH.
Qed.

Lemma flat_map_singleton {A B : Type} (g : A -> B) (l : list A) :
  flat_map (fun a => [g a]) l = map g l.
Proof.
  induction l as [|a l IH]; simpl; [reflexivity|]. now rewrite IH.
Qed.

Lemma map_flat_map {A B C : Type} (h : B -> C) (g : A -> list B) (l : list A) :
  map h (flat_map g l) = flat_map (fun a => map h (g a)) l.
Proof.
  induction l as [|a l IH]; simpl; [reflexivity|].
  now rewrite map_app, IH.
Qed.

Lemma product_three {A : Type} (l0 l1 l2 : list A) :
  Triangulate.product [l0; l1; l2]
  = flat_map (fun a => flat_map (fun b => map (fun c => [a; b; c]) l2) l1) l0.
Proof.
  cbn [Triangulate.product map]. apply flat_map_ext. intros a.
  rewrite map_flat_map. apply flat_map_ext. intros b.
  rewrite (flat_map_singleton (fun c => [c])), !map_map. reflexivity.
Qed.

Lemma point_key_combinations_three (v0 v1 v2 : list (list R)) :
  Triangulate.point_key_combinations [v0; v1; v2]
  = Triangulate.key_triples (length v0) (length v1) (length v2).
Proof.
  unfold Triangulate.point_key_combinations, Triangulate.key_triples.
  cbn [map]. apply product_three.
Qed.

Lemma length_flat_map_const {A B : Type} (g : A -> list B) (l : list A) (n : nat) :
  (forall a, length (g a) = n) -> length (flat_map g l) = (length l * n)%nat.
Proof.
  intros Hg. induction l as [|a l IH]; simpl; [reflexivity|].
  rewrite length_app, Hg, IH. reflexivity.
Qed.

Lemma length_key_triples (n0 n1 n2 : nat) :
  length (Triangulate.key_triples n0 n1 n2) = (n0 * n1 * n2)%nat.
Proof.
  unfold Triangulate.key_triples.
  rewrite (length_flat_map_const _ _ (n1 * n2)).
  - rewrite length_seq. lia.
  - intros i. rewrite (length_flat_map_const _ _ n2).
    + now rewrite length_seq.
    + intros j. now rewrite length_map, length_seq.
Qed.

(** The triples are exactly the elements of the Cartesian product of the
    three ranges of keys. *)
Lemma in_key_triples (n0 n1 n2 : nat) (t : list nat) :
  In t (Triangulate.key_triples n0 n1 n2)
  <-> exists i j k, t = [i; j; k] /\ (i < n0 /\ j < n1 /\ k < n2)%nat.
Proof.
  unfold Triangulate.key_triples. rewrite in_flat_map. split.
  - intros (i & Hi & Ht). apply in_flat_map in Ht.
    destruct Ht as (j & Hj & Ht). apply in_map_iff in Ht.
    destruct Ht as (k & <- & Hk).
    apply in_seq in Hi, Hj, Hk. exists i, j, k. split; [reflexivity|lia].
  - intros (i & j & k & -> & Hi & Hj & Hk).
    exists i. split; [apply in_seq; lia|].
    apply in_flat_map. exists j. split; [apply in_seq; lia|].
    apply in_map_iff. exists k. split; [reflexivity|apply in_seq; lia].
Qed.

Lemma NoDup_key_triples (n0 n1 n2 : nat) :
  NoDup (Triangulate.key_triples n0 n1 n2).
Proof.
  unfold Triangulate.key_triples.
  assert (Hflat : forall (A : Type) (g : nat -> list A) (l : list nat),
            NoDup l ->
            (forall i, NoDup (g i)) ->
            (forall i j a, In a (g i) -> In a (g j) -> i = j) ->
            NoDup (flat_map g l)).
  { intros A g l Hl Hg Hdisj. induction Hl as [|i l Hi Hl IH]; simpl.
    - constructor.
    - apply NoDup_app; [apply Hg | exact IH |].
      intros a Ha Hb. apply in_flat_map in Hb. destruct Hb as (j & Hj & Hb).
      apply Hi. now rewrite (Hdisj i j a Ha Hb). }
  apply Hflat.
  - apply seq_NoDup.
  - intros i. apply Hflat.
    + apply seq_NoDup.
    + intros j. apply Finite.Injective_map_NoDup; [|apply seq_NoDup].
      intros k k' H. now inversion H.
    + intros j j' a Ha Hb. apply in_map_iff in Ha, Hb.
      destruct Ha as (k & <- & _). destruct Hb as (k' & H & _). now inversion H.
  - intros i i' a Ha Hb. apply in_flat_map in Ha, Hb.
    destruct Ha as (j & _ & Ha). destruct Hb as (j' & _ & Hb).
    apply in_map_iff in Ha, Hb.
    destruct Ha as (k & <- & _). destruct Hb as (k' & H & _). now inversion H.
Qed.

(** ** triangulate: the loop *)

Section TriangulateLoop.

Variable minimize :
  (ndarray1 -> list (list R) -> result R) ->
  ndarray1 -> list (list R) -> Triangulate.method -> Triangulate.options ->
  option R -> Triangulate.OptimizeResult.

Variable image_points : list (list (list R)).
Variable cameras : Triangulate.Cameras.
Variable x0 : ndarray1.

Let body :=
  Triangulate.loop_body minimize image_points cameras
    (Triangulate.get_camera_model_triplet cameras) x0.
Let cand := Triangulate.candidate minimize image_points cameras x0.

(** The loop appends one object point and one call per combination, in the
    order of the combinations, and folds [min] over the errors. *)
Lemma fold_loop_body (combos : list (list nat)) (st : Triangulate.loop_state) :
  fold_left body combos st
  = Triangulate.mkLoop
      (Triangulate.res_3d st ++ map cand combos)
      (fold_left Triangulate.min_ext
         (map (fun c => Triangulate.error (cand c)) combos)
         (Triangulate.best_err st))
      (Triangulate.calls st
         ++ map (Triangulate.call_of image_points cameras x0) combos).
Proof.
  revert st. induction combos as [|c combos IH]; intros st.
  - simpl. rewrite !app_nil_r. now destruct st.
  - cbn [fold_left map]. rewrite IH.
    unfold body, Triangulate.loop_body.
    cbn [Triangulate.res_3d Triangulate.best_err Triangulate.calls
         Triangulate.error fold_left].
    rewrite <- !app_assoc. reflexivity.
Qed.

Lemma solve_combinations_eq :
  Triangulate.solve_combinations minimize image_points cameras x0
  = Triangulate.mkLoop
      (map cand (Triangulate.point_key_combinations image_points))
      (fold_left Triangulate.min_ext
         (map (fun c => Triangulate.error (cand c))
              (Triangulate.point_key_combinations image_points))
         Inf)
      (map (Triangulate.call_of image_points cameras x0)
           (Triangulate.point_key_combinations image_points)).
Proof.
  unfold Triangulate.solve_combinations. apply fold_loop_body.
Qed.

End TriangulateLoop.

(** C1. For a call of [triangulate] with three views of n0, n1 and n2
    candidate points (and arguments that pass its assertions), [minimize] is
    called exactly n0*n1*n2 times, once per triple of keys of the Cartesian
    product and in the order of that product, every time from the same
    initial guess; and before filtering there is exactly one object point
    per triple, which carries the point and the objective value [minimize]
    returned for that triple and the triple itself as its source indices. *)
Theorem triangulate_attempts_every_combination
    (minimize :
       (ndarray1 -> list (list R) -> result R) ->
       ndarray1 -> list (list R) -> Triangulate.method -> Triangulate.options ->
       option R -> Triangulate.OptimizeResult)
    (v0 v1 v2 : list (list R)) (cameras : Triangulate.Cameras)
    (x0 : option ndarray1) (matching_threshold : R) :
  Triangulate.check_arguments [v0; v1; v2] x0 = true ->
  let guess := Triangulate.initial_guess x0 in
  let triples := Triangulate.key_triples (length v0) (length v1) (length v2) in
  let st := Triangulate.solve_combinations minimize [v0; v1; v2] cameras guess in
  snd (Triangulate.triangulate_traced minimize [v0; v1; v2] cameras x0
         matching_threshold)
  = Triangulate.calls st
  /\ Triangulate.calls st
     = map (Triangulate.call_of [v0; v1; v2] cameras guess) triples
  /\ length (Triangulate.calls st) = (length v0 * length v1 * length v2)%nat
  /\ Forall (fun c => Triangulate.call_x0 c = guess) (Triangulate.calls st)
  /\ Triangulate.res_3d st
     = map (Triangulate.candidate minimize [v0; v1; v2] cameras guess) triples
  /\ length (Triangulate.res_3d st) = (length v0 * length v1 * length v2)%nat
  /\ (forall i j k : nat,
        In [i; j; k] triples <-> (i < length v0 /\ j < length v1 /\ k < length v2)%nat)
  /\ NoDup triples
  /\ (forall i j k : nat,
        let r := Triangulate.candidate minimize [v0; v1; v2] cameras guess [i; j; k] in
        let res := minimize (Triangulate.f (Triangulate.get_camera_model_triplet cameras))
                     guess [nth i v0 []; nth j v1 []; nth k v2 []]
                     Triangulate.BFGS Triangulate.bfgs_options
                     (Triangulate.reprojection_error cameras) in
        Triangulate.point_3d r = Triangulate.x res
        /\ Triangulate.error r = Triangulate.fun_ res
        /\ Triangulate.source_point_idxs r = [i; j; k]).
Proof.
  intros Hcheck guess triples st.
  assert (Hst : st = Triangulate.mkLoop
            (map (Triangulate.candidate minimize [v0; v1; v2] cameras guess) triples)
            (fold_left Triangulate.min_ext
               (map (fun c => Triangulate.error
                      (Triangulate.candidate minimize [v0; v1; v2] cameras guess c))
                    triples) Inf)
            (map (Triangulate.call_of [v0; v1; v2] cameras guess) triples)).
  { subst st triples. rewrite solve_combinations_eq.
    now rewrite point_key_combinations_three. }
  assert (Hlen : length triples = (length v0 * length v1 * length v2)%nat)
    by apply length_key_triples.
  split; [|split; [|split; [|split; [|split; [|split; [|split; [|split]]]]]]].
  - unfold Triangulate.triangulate_traced. rewrite Hcheck. cbn [negb].
    fold guess. fold st.
    now destruct (Triangulate.sort _).
  - now rewrite Hst.
  - rewrite Hst. cbn [Triangulate.calls]. now rewrite length_map.
  - rewrite Hst. cbn [Triangulate.calls]. apply Forall_forall.
    intros c Hc. apply in_map_iff in Hc. now destruct Hc as (t & <- & _).
  - now rewrite Hst.
  - rewrite Hst. cbn [Triangulate.res_3d]. now rewrite length_map.
  - intros i j k. subst triples. rewrite in_key_triples. split.
    + intros (i' & j' & k' & Heq & H). now inversion Heq; subst.
    + intros H. now exists i, j, k.
  - apply NoDup_key_triples.
  - intros i j k. cbv zeta. repeat split.
Qed.

Lemma triangulate_attempts_every_combination_witness :
  length (snd (Triangulate.triangulate_traced Triangulate.example_minimize
                 [ [[0; 0]; [1; 1]]; [[0; 0]; [1; 1]; [2; 2]]; [[0; 0]] ]
                 Triangulate.example_cameras None 1000))
  = 6%nat.
Proof.
  destruct (triangulate_attempts_every_combination Triangulate.example_minimize
              [[0; 0]; [1; 1]] [[0; 0]; [1; 1]; [2; 2]] [[0; 0]]
              Triangulate.example_cameras None 1000 eq_refl)
    as (Hcalls & _ & Hlen & _).
  rewrite Hcalls. exact Hlen.
Defined.

(** ** triangulate: filtering and sorting *)

Lemma below_true_iff (thr : R) (r : Triangulate.ObjectPoint) :
  Triangulate.below thr r = true <-> Triangulate.error r < thr.
Proof.
  unfold Triangulate.below. destruct (Rlt_dec _ _); split; auto; discriminate.
Qed.

Lemma exceeds_true_iff (thr : R) (r : Triangulate.ObjectPoint) :
  Triangulate.exceeds thr r = true <-> thr < Triangulate.error r.
Proof.
  unfold Triangulate.exceeds. destruct (Rlt_dec _ _); split; auto; discriminate.
Qed.

Lemma insert_perm (r : Triangulate.ObjectPoint) (l : list Triangulate.ObjectPoint) :
  Permutation (Triangulate.insert r l) (r :: l).
Proof.
  induction l as [|h l IH]; simpl; [reflexivity|].
  destruct (Rlt_dec _ _); [|reflexivity].
  rewrite IH. apply perm_swap.
Qed.

Lemma sort_perm (l : list Triangulate.ObjectPoint) :
  Permutation (Triangulate.sort l) l.
Proof.
  induction l as [|r l IH]; simpl; [reflexivity|].
  rewrite insert_perm. now constructor.
Qed.

Lemma insert_sorted (r : Triangulate.ObjectPoint) (l : list Triangulate.ObjectPoint) :
  StronglySorted Triangulate.error_le l -> StronglySorted Triangulate.error_le (Triangulate.insert r l).
Proof.
  induction 1 as [|h l Hs IH Hh]; simpl.
  - repeat constructor.
  - destruct (Rlt_dec (Triangulate.error h) (Triangulate.error r)) as [Hlt|Hge].
    + constructor; [exact IH|].
      rewrite (Forall_forall (Triangulate.error_le h)). intros y Hy.
      apply (Permutation_in _ (insert_perm r l)) in Hy. destruct Hy as [<-|Hy].
      * unfold Triangulate.error_le. lra.
      * rewrite Forall_forall in Hh. now apply Hh.
    + constructor; [now constructor|].
      constructor; [unfold Triangulate.error_le; lra|].
      apply Forall_impl with (P := Triangulate.error_le h); [|exact Hh].
      unfold Triangulate.error_le. intros y Hy. lra.
Qed.

Lemma sort_sorted (l : list Triangulate.ObjectPoint) :
  StronglySorted Triangulate.error_le (Triangulate.sort l).
Proof.
  induction l as [|r l IH]; simpl; [constructor|].
  now apply insert_sorted.
Qed.

Lemma sorted_errors (l : list Triangulate.ObjectPoint) :
  StronglySorted Triangulate.error_le l -> Sorted Rle (map Triangulate.error l).
Proof.
  intros H. apply StronglySorted_Sorted.
  induction H as [|h l Hs IH Hh]; simpl; constructor; [exact IH|].
  apply Forall_map. exact Hh.
Qed.

Lemma sort_nil_iff (l : list Triangulate.ObjectPoint) :
  Triangulate.sort l = [] <-> l = [].
Proof.
  split; [|now intros ->].
  intros H. apply Permutation_nil. rewrite <- H. apply sort_perm.
Qed.

(** ** triangulate: the re-projection *)

Lemma reproject_forget cams r r' :
  Triangulate.reproject cams r = Ok r' ->
  Triangulate.forget r' = Triangulate.forget r
  /\ Triangulate.error r' = Triangulate.error r.
Proof.
  unfold Triangulate.reproject.
  destruct (mapM _ _) as [pts|e]; [|discriminate].
  cbn [bind]. intros H; inversion H; subst. split; reflexivity.
Qed.

Lemma mapM_reproject_forget cams l l' :
  mapM (Triangulate.reproject cams) l = Ok l' ->
  map Triangulate.forget l' = map Triangulate.forget l
  /\ map Triangulate.error l' = map Triangulate.error l.
Proof.
  revert l'. induction l as [|r l IH]; intros l'; simpl.
  - intros H; inversion H; subst. split; reflexivity.
  - destruct (Triangulate.reproject cams r) as [r'|e] eqn:Hr; [|discriminate].
    destruct (mapM _ l) as [rs|e]; [|discriminate].
    intros H; inversion H; subst.
    destruct (reproject_forget _ _ _ Hr) as [Hf He].
    destruct (IH rs eq_refl) as [Hfs Hes].
    simpl. now rewrite Hf, He, Hfs, Hes.
Qed.

Lemma mapM_nil_inv {A B : Type} (g : A -> result B) (l : list A) :
  mapM g l = Ok [] -> l = [].
Proof.
  destruct l as [|a l]; [reflexivity|]. simpl.
  destruct (g a); [|discriminate]. destruct (mapM g l); discriminate.
Qed.

(** ** triangulate: the best error *)

Lemma fold_min_ext_finite (l : list R) (m : R) :
  exists m', fold_left Triangulate.min_ext l (Finite m) = Finite m'
    /\ (m' = m \/ In m' l) /\ m' <= m /\ Forall (fun e => m' <= e) l.
Proof.
  revert m. induction l as [|e l IH]; intros m; simpl.
  - exists m. repeat split; auto. lra.
  - destruct (Rlt_dec e m) as [Hlt|Hge].
    + destruct (IH e) as (m' & Hf & Hin & Hle & Hall).
      exists m'. repeat split; auto.
      * destruct Hin as [->|Hin]; auto.
      * lra.
    + destruct (IH m) as (m' & Hf & Hin & Hle & Hall).
      exists m'. repeat split; auto.
      * destruct Hin as [->|Hin]; auto.
      * constructor; [lra|exact Hall].
Qed.

Lemma fold_min_ext_minimum (l : list R) :
  Triangulate.minimum_of (fold_left Triangulate.min_ext l Inf) l.
Proof.
  destruct l as [|e l]; simpl; [reflexivity|].
  destruct (fold_min_ext_finite l e) as (m' & -> & Hin & Hle & Hall).
  simpl. split.
  - destruct Hin as [->|Hin]; auto.
  - constructor; assumption.
Qed.

Section TriangulateFacts.

Variable minimize :
  (ndarray1 -> list (list R) -> result R) ->
  ndarray1 -> list (list R) -> Triangulate.method -> Triangulate.options ->
  option R -> Triangulate.OptimizeResult.

Variable image_points : list (list (list R)).
Variable cameras : Triangulate.Cameras.
Variable x0 : option ndarray1.
Variable matching_threshold : R.

Let st :=
  Triangulate.solve_combinations minimize image_points cameras
    (Triangulate.initial_guess x0).
Let survivors :=
  Triangulate.sort
    (filter (Triangulate.below matching_threshold) (Triangulate.res_3d st)).

(** The three ways [triangulate] can end. *)
Lemma triangulate_cases :
  Triangulate.triangulate minimize image_points cameras x0 matching_threshold
  = if negb (Triangulate.check_arguments image_points x0)
    then Raise AssertionError
    else match survivors with
         | [] => Raise (ValueError (ZeroPointsBelowThreshold
                          (Triangulate.best_err st) matching_threshold))
         | _ :: _ => mapM (Triangulate.reproject
                             (Triangulate.get_camera_model_triplet cameras))
                          survivors
         end.
Proof.
  unfold Triangulate.triangulate, Triangulate.triangulate_traced.
  destruct (negb _); [reflexivity|].
  fold st. fold survivors. now destruct survivors.
Qed.

Lemma best_err_minimum :
  Triangulate.minimum_of (Triangulate.best_err st)
    (map Triangulate.error (Triangulate.res_3d st)).
Proof.
  subst st. rewrite solve_combinations_eq.
  cbn [Triangulate.best_err Triangulate.res_3d].
  rewrite map_map. apply fold_min_ext_minimum.
Qed.

(** The candidates of the loop carry no re-projection yet. *)
Lemma candidates_forget :
  Forall (fun r => Triangulate.forget r = r) (Triangulate.res_3d st).
Proof.
  subst st. rewrite solve_combinations_eq. cbn [Triangulate.res_3d].
  apply Forall_forall. intros r Hr. apply in_map_iff in Hr.
  now destruct Hr as (c & <- & _).
Qed.

Lemma survivors_forget : map Triangulate.forget survivors = survivors.
Proof.
  assert (H : Forall (fun r => Triangulate.forget r = r) survivors).
  { apply Forall_forall. intros r Hr.
    apply (Permutation_in _ (sort_perm _)) in Hr.
    apply filter_In in Hr. destruct Hr as [Hr _].
    pose proof candidates_forget as Hc. rewrite Forall_forall in Hc. auto. }
  induction H as [|r l Hr Hl IH]; simpl; [reflexivity|]. now rewrite Hr, IH.
Qed.

Lemma returned_inv (l : list Triangulate.ObjectPoint) :
  Triangulate.triangulate minimize image_points cameras x0 matching_threshold
  = Ok l ->
  map Triangulate.forget l = survivors
  /\ map Triangulate.error l = map Triangulate.error survivors
  /\ survivors <> [].
Proof.
  rewrite triangulate_cases.
  destruct (negb _); [discriminate|].
  destruct survivors as [|r rs] eqn:Hs; [discriminate|].
  intros H. apply mapM_reproject_forget in H. destruct H as [Hf He].
  rewrite <- Hs in *. rewrite survivors_forget in Hf.
  repeat split; auto. rewrite Hs. discriminate.
Qed.

End TriangulateFacts.

(** C2 (as amended). When [triangulate] returns a list, that list is, up to
    the re-projections attached at the end, the stable sort by error of the
    candidates whose error is strictly below [matching_threshold]: every
    candidate whose error is greater than or equal to the threshold has been
    removed (in particular every candidate whose error exceeds it), every
    candidate strictly below it is returned, every returned object point has
    an error below the threshold, and the errors of consecutive returned
    object points do not decrease. *)
Theorem triangulate_filters_and_sorts
    (minimize :
       (ndarray1 -> list (list R) -> result R) ->
       ndarray1 -> list (list R) -> Triangulate.method -> Triangulate.options ->
       option R -> Triangulate.OptimizeResult)
    (image_points : list (list (list R))) (cameras : Triangulate.Cameras)
    (x0 : option ndarray1) (matching_threshold : R)
    (l : list Triangulate.ObjectPoint) :
  Triangulate.triangulate minimize image_points cameras x0 matching_threshold
  = Ok l ->
  let candidates :=
    Triangulate.res_3d
      (Triangulate.solve_combinations minimize image_points cameras
         (Triangulate.initial_guess x0)) in
  map Triangulate.forget l
  = Triangulate.sort (filter (Triangulate.below matching_threshold) candidates)
  /\ Permutation (map Triangulate.forget l)
       (filter (Triangulate.below matching_threshold) candidates)
  /\ (forall c, In c candidates ->
        (In c (map Triangulate.forget l)
         <-> Triangulate.error c < matching_threshold))
  /\ (forall c, In c candidates -> matching_threshold < Triangulate.error c ->
        ~ In c (map Triangulate.forget l))
  /\ (forall r, In r l -> Triangulate.error r < matching_threshold)
  /\ Sorted Rle (map Triangulate.error l).
Proof.
  intros Hret candidates.
  apply returned_inv in Hret. destruct Hret as (Hf & He & _).
  fold candidates in Hf, He.
  assert (Hin : forall c, In c (map Triangulate.forget l)
                  <-> In c candidates /\ Triangulate.error c < matching_threshold).
  { intros c. rewrite Hf. rewrite <- below_true_iff, <- filter_In.
    split; apply Permutation_in;
      [apply sort_perm | symmetry; apply sort_perm]. }
  split; [exact Hf|]. split; [rewrite Hf; apply sort_perm|].
  split; [|split; [|split]].
  - intros c Hc. rewrite Hin. tauto.
  - intros c Hc Hgt Habs. apply Hin in Habs. lra.
  - intros r Hr.
    assert (H : In (Triangulate.forget r) (map Triangulate.forget l))
      by now apply in_map.
    apply Hin in H. exact (proj2 H).
  - rewrite He. apply sorted_errors, sort_sorted.
Qed.

(** The exceptions of the re-projection are not the one of the filter. *)
Lemma mapM_raise_inv {A B : Type} (g : A -> result B) (l : list A) e :
  mapM g l = Raise e -> exists a, In a l /\ g a = Raise e.
Proof.
  induction l as [|a l IH]; simpl; [discriminate|].
  destruct (g a) as [b|e'] eqn:Hg.
  - destruct (mapM g l) as [bs|e'']; [discriminate|].
    intros H. destruct (IH H) as (a' & Hin & Ha'). exists a'. auto.
  - intros H. inversion H; subst. exists a. auto.
Qed.

Lemma project_to_2d_raise_inv self p d e :
  PinholeCamera.project_to_2d self p d = Raise e ->
  e = AssertionError \/ e = ValueError UnpackMismatch.
Proof.
  unfold PinholeCamera.project_to_2d.
  destruct (has_shape1 3 p); [|intros H; inversion H; auto].
  destruct (PinholeCamera.shift self); destruct d;
    destruct (PinholeCamera.distortion self)
      as [[|k1 [|k2 [|p1 [|p2 [|k3 [|]]]]]]|];
    cbn [bind]; intros H; inversion H; auto.
Qed.

Lemma reproject_raise_inv cams r e :
  Triangulate.reproject cams r = Raise e ->
  e = IndexError \/ e = AssertionError \/ e = ValueError UnpackMismatch.
Proof.
  unfold Triangulate.reproject.
  destruct (mapM _ _) as [pts|e'] eqn:Hm; [discriminate|].
  cbn [bind]. intros H; inversion H; subst.
  apply mapM_raise_inv in Hm. destruct Hm as (c & _ & Hc).
  destruct (nth_error cams c) as [cam|]; cbn [Triangulate.index_error bind] in Hc.
  - apply project_to_2d_raise_inv in Hc. tauto.
  - inversion Hc; auto.
Qed.

(** C3. For arguments that pass the assertions, [triangulate] raises the
    "zero 3D points" [ValueError] (the spec's NoSolutionError) if and only
    if no candidate survives the threshold filter; the error it reports is
    the least error over all the combinations tried (infinity when there
    was none); and [triangulate] never returns an empty list. *)
Theorem triangulate_raises_iff_no_survivor
    (minimize :
       (ndarray1 -> list (list R) -> result R) ->
       ndarray1 -> list (list R) -> Triangulate.method -> Triangulate.options ->
       option R -> Triangulate.OptimizeResult)
    (image_points : list (list (list R))) (cameras : Triangulate.Cameras)
    (x0 : option ndarray1) (matching_threshold : R) :
  Triangulate.check_arguments image_points x0 = true ->
  let candidates :=
    Triangulate.res_3d
      (Triangulate.solve_combinations minimize image_points cameras
         (Triangulate.initial_guess x0)) in
  let outcome :=
    Triangulate.triangulate minimize image_points cameras x0 matching_threshold in
  ((exists best thr, outcome = Raise (ValueError (ZeroPointsBelowThreshold best thr)))
   <-> filter (Triangulate.below matching_threshold) candidates = [])
  /\ (forall best thr,
        outcome = Raise (ValueError (ZeroPointsBelowThreshold best thr)) ->
        thr = matching_threshold
        /\ Triangulate.minimum_of best (map Triangulate.error candidates))
  /\ outcome <> Ok [].
Proof.
  intros Hcheck candidates outcome.
  assert (Hcases := triangulate_cases minimize image_points cameras x0
                      matching_threshold).
  cbv zeta in Hcases. fold candidates in Hcases. fold outcome in Hcases.
  rewrite Hcheck in Hcases. cbn [negb] in Hcases.
  assert (Hmin := best_err_minimum minimize image_points cameras x0).
  cbv zeta in Hmin. fold candidates in Hmin.
  destruct (Triangulate.sort
              (filter (Triangulate.below matching_threshold) candidates))
    as [|r rs] eqn:Hs.
  - apply (proj1 (sort_nil_iff _)) in Hs. rewrite Hcases. split; [|split].
    + split; [intros _; exact Hs|]. intros _. eauto.
    + intros best thr H. inversion H; subst. auto.
    + discriminate.
  - assert (Hne : filter (Triangulate.below matching_threshold) candidates <> []).
    { intros Habs. apply (proj2 (sort_nil_iff _)) in Habs. congruence. }
    assert (Hnot : forall best thr,
              outcome <> Raise (ValueError (ZeroPointsBelowThreshold best thr))).
    { intros best thr Habs. rewrite Hcases in Habs.
      apply mapM_raise_inv in Habs. destruct Habs as (a & _ & Ha).
      apply reproject_raise_inv in Ha.
      destruct Ha as [Ha|[Ha|Ha]]; discriminate. }
    split; [|split].
    + split; [intros (best & thr & H); now apply Hnot in H|].
      intros H. contradiction.
    + intros best thr H. now apply Hnot in H.
    + rewrite Hcases. intros Habs. apply mapM_nil_inv in Habs. discriminate.
Qed.

(** C10. If one of the three views has no candidate point (and the
    arguments pass the assertions), [triangulate] does not return: there is
    no combination, [minimize] is never called, and the "zero 3D points"
    [ValueError] is raised with infinity as the best error. *)
Theorem triangulate_empty_view_raises
    (minimize :
       (ndarray1 -> list (list R) -> result R) ->
       ndarray1 -> list (list R) -> Triangulate.method -> Triangulate.options ->
       option R -> Triangulate.OptimizeResult)
    (image_points : list (list (list R))) (cameras : Triangulate.Cameras)
    (x0 : option ndarray1) (matching_threshold : R) :
  Triangulate.check_arguments image_points x0 = true ->
  In [] image_points ->
  Triangulate.point_key_combinations image_points = []
  /\ Triangulate.triangulate_traced minimize image_points cameras x0
       matching_threshold
     = (Raise (ValueError (ZeroPointsBelowThreshold Inf matching_threshold)), [])
  /\ Triangulate.triangulate minimize image_points cameras x0 matching_threshold
     = Raise (ValueError (ZeroPointsBelowThreshold Inf matching_threshold)).
Proof.
  intros Hcheck Hempty.
  assert (Hcombos : Triangulate.point_key_combinations image_points = []).
  { unfold Triangulate.point_key_combinations. apply product_with_empty.
    apply in_map_iff. exists []. split; [reflexivity|exact Hempty]. }
  assert (Htraced :
    Triangulate.triangulate_traced minimize image_points cameras x0
      matching_threshold
    = (Raise (ValueError (ZeroPointsBelowThreshold Inf matching_threshold)), [])).
  { unfold Triangulate.triangulate_traced. rewrite Hcheck. cbn [negb].
    rewrite solve_combinations_eq, Hcombos. reflexivity. }
  split; [exact Hcombos|]. split; [exact Htraced|].
  unfold Triangulate.triangulate. now rewrite Htraced.
Qed.

Lemma triangulate_empty_view_raises_witness :
  Triangulate.triangulate Triangulate.example_minimize
    [ [[0; 0]]; []; [[1; 1]] ] Triangulate.example_cameras None 1000
  = Raise (ValueError (ZeroPointsBelowThreshold Inf 1000)).
Proof.
  apply (triangulate_empty_view_raises Triangulate.example_minimize
           [ [[0; 0]]; []; [[1; 1]] ] Triangulate.example_cameras None 1000).
  - reflexivity.
  - simpl. auto.
Defined.

Lemma triangulate_raises_iff_no_survivor_witness :
  Triangulate.triangulate Triangulate.example_minimize
    [ [[0; 0]]; [[0; 0]]; [[0; 0]] ] Triangulate.example_cameras None 1000
  <> Ok [].
Proof.
  apply (triangulate_raises_iff_no_survivor Triangulate.example_minimize
           [ [[0; 0]]; [[0; 0]]; [[0; 0]] ] Triangulate.example_cameras None 1000).
  reflexivity.
Defined.

(** ** triangulate on concrete data *)

Ltac real_cbn :=
  cbn -[Rlt_dec IZR Rplus Rmult Rdiv Rinv Rminus Ropp pow sqrt].

Ltac decide_Rlt :=
  repeat match goal with
  | |- context [Rlt_dec ?a ?b] =>
      destruct (Rlt_dec a b); [try (exfalso; lra) | try (exfalso; lra)]
  end.

Ltac run_triangulate :=
  rewrite triangulate_cases; cbv zeta;
  rewrite solve_combinations_eq, point_key_combinations_three;
  real_cbn; unfold Triangulate.below; real_cbn;
  repeat (progress (decide_Rlt; real_cbn)).

Lemma triangulate_filters_and_sorts_witness :
  exists l,
    Triangulate.triangulate Triangulate.example_minimize
      [ [[3; 0]; [0; 0]; [5; 0]]; [[0; 0]]; [[0; 0]] ]
      Triangulate.example_cameras None 5 = Ok l
    /\ (forall r, In r l -> Triangulate.error r < 5)
    /\ Sorted Rle (map Triangulate.error l).
Proof.
  assert (Hrun : { l | Triangulate.triangulate Triangulate.example_minimize
                         [ [[3; 0]; [0; 0]; [5; 0]]; [[0; 0]]; [[0; 0]] ]
                         Triangulate.example_cameras None 5 = Ok l }).
  { eexists. run_triangulate. reflexivity. }
  destruct Hrun as [l Hrun]. exists l. split; [exact Hrun|].
  destruct (triangulate_filters_and_sorts _ _ _ _ _ _ Hrun)
    as (_ & _ & _ & _ & Hbelow & Hsorted).
  split; assumption.
Defined.

(** C2, the claim as the specification words it, fails when a candidate's
    error is equal to the threshold: of the two candidates with errors 0 and
    5, neither exceeds the threshold 5, yet only the first is returned. *)
Lemma triangulate_threshold_boundary_counterexample :
  ~ Triangulate.returns_candidates_not_exceeding Triangulate.example_minimize
      [ [[0; 0]; [5; 0]]; [[0; 0]]; [[0; 0]] ]
      Triangulate.example_cameras None 5.
Proof.
  intros Hclaim.
  assert (Hrun : exists l,
            Triangulate.triangulate Triangulate.example_minimize
              [ [[0; 0]; [5; 0]]; [[0; 0]]; [[0; 0]] ]
              Triangulate.example_cameras None 5 = Ok l).
  { eexists. run_triangulate. reflexivity. }
  destruct Hrun as [l Hrun].
  specialize (Hclaim l Hrun).
  apply returned_inv in Hrun. destruct Hrun as (Hf & _ & _).
  rewrite Hf in Hclaim. apply Permutation_length in Hclaim. revert Hclaim.
  rewrite solve_combinations_eq, point_key_combinations_three.
  unfold Triangulate.spec_remaining.
  real_cbn. unfold Triangulate.below, Triangulate.exceeds. real_cbn.
  repeat (progress (decide_Rlt; real_cbn)).
  discriminate.
Qed.

(** ** get_approximate *)














(** ** find_approximation *)

Section SearchFacts.

Variable smooth_trajectory : nat -> list TumbleRun.vec3 -> list TumbleRun.vec3.
Variable calculate_curvature : list TumbleRun.vec3 -> list R.
Variable smooth_curvature : nat -> list R -> list R.
Variable tolerance : R.

(** The signals are per time step: smoothing and the curvature computation
    keep the number of time steps. *)
Hypothesis smooth_trajectory_length :
  forall w l, length (smooth_trajectory w l) = length l.
Hypothesis calculate_curvature_length :
  forall l, length (calculate_curvature l) = length l.
Hypothesis smooth_curvature_length :
  forall w l, length (smooth_curvature w l) = length l.

Variable X : list TumbleRun.vec3.
Variable e0_raw : list TumbleRun.vec3.
Variable error_limit : R.

Hypothesis lengths_agree : length X = length e0_raw.

Let evaluate :=
  TumbleRun.evaluate smooth_trajectory calculate_curvature smooth_curvature
    X e0_raw.
Let deviation := TumbleRun.deviation error_limit.
Let bisect :=
  TumbleRun.bisect smooth_trajectory calculate_curvature smooth_curvature
    tolerance X e0_raw error_limit.



Let search_post :=
  TumbleRun.search_post smooth_trajectory calculate_curvature smooth_curvature
    tolerance X e0_raw error_limit.


End SearchFacts.



(** * Further properties of the code *)

(** ** PinholeCamera: construction and projection *)

Lemma has_shape1_length (n : nat) (v : ndarray1) :
  has_shape1 n v = true <-> length v = n.
Proof. unfold has_shape1. apply Nat.eqb_eq. Qed.

Lemma has_shape2_lengths (r c : nat) (m : ndarray2) :
  has_shape2 r c m = true <-> length m = r /\ Forall (fun row => length row = c) m.
Proof.
  unfold has_shape2. rewrite andb_true_iff, Nat.eqb_eq, forallb_forall, Forall_forall.
  split; intros [H1 H2]; (split; [exact H1|]); intros x Hx;
    apply has_shape1_length; auto.
Qed.

(** The constructor accepts exactly a 4x4 pose, a 3x3 matrix and a
    distortion that is absent or has five entries, and fails with an
    assertion error otherwise.  The camera it builds keeps its arguments;
    its rotation is the upper left 3x3 block of the pose and its translation
    the first three entries of the last column. *)
Theorem pinhole_init_contract (pose matrix : ndarray2)
    (distortion : option ndarray1) (shift : option (R * R)) :
  ((exists self, PinholeCamera.init pose matrix distortion shift = Ok self)
   <-> (length pose = 4%nat /\ Forall (fun row => length row = 4%nat) pose)
       /\ (length matrix = 3%nat /\ Forall (fun row => length row = 3%nat) matrix)
       /\ (forall d, distortion = Some d -> length d = 5%nat))
  /\ (forall e, PinholeCamera.init pose matrix distortion shift = Raise e ->
      e = AssertionError)
  /\ (forall self, PinholeCamera.init pose matrix distortion shift = Ok self ->
      PinholeCamera.pose self = pose
      /\ PinholeCamera.matrix self = matrix
      /\ PinholeCamera.distortion self = distortion
      /\ PinholeCamera.shift self = shift
      /\ length (PinholeCamera.rotation self) = 3%nat
      /\ length (PinholeCamera.translation self) = 3%nat
      /\ (forall i j, (i < 3)%nat -> (j < 3)%nat ->
            item2 (PinholeCamera.rotation self) i j = item2 pose i j)
      /\ (forall i, (i < 3)%nat ->
            item (PinholeCamera.translation self) i = item2 pose i 3)).
Proof.
  split; [|split].
  - rewrite <- !has_shape2_lengths. unfold PinholeCamera.init. split.
    + intros [self H].
      destruct (has_shape2 4 4 pose); [|discriminate].
      destruct (has_shape2 3 3 matrix); [|discriminate].
      split; [reflexivity|]. split; [reflexivity|].
      intros d ->. apply has_shape1_length.
      destruct (has_shape1 5 d); [reflexivity|discriminate].
    + intros (-> & -> & Hd). destruct distortion as [d|].
      * rewrite (proj2 (has_shape1_length 5 d) (Hd d eq_refl)). eauto.
      * eauto.
  - intros e. unfold PinholeCamera.init.
    destruct (has_shape2 4 4 pose); [|intros H; now inversion H].
    destruct (has_shape2 3 3 matrix); [|intros H; now inversion H].
    destruct distortion as [d|]; [destruct (has_shape1 5 d)|];
      intros H; now inversion H.
  - intros self H. apply init_inv in H. destruct H as (Hp & _ & _ & ->).
    cbn [PinholeCamera.pose PinholeCamera.matrix PinholeCamera.distortion
         PinholeCamera.shift PinholeCamera.rotation PinholeCamera.translation].
    shape_inv. repeat split.
    + intros i j Hi Hj.
      destruct i as [|[|[|i]]]; [| | |lia];
        (destruct j as [|[|[|j]]]; [| | |lia]); reflexivity.
    + intros i Hi. destruct i as [|[|[|i]]]; [| | |lia]; reflexivity.
Qed.

(** On a camera the constructor built, [project_to_2d] has two outcomes
    only: a point with three coordinates is projected to a pair of pixel
    coordinates, any other point fails the shape assertion.  Unpacking the
    distortion never fails. *)
Theorem project_to_2d_outcomes pose matrix distortion shift self
    (image_point : ndarray1) (distort : bool) :
  PinholeCamera.init pose matrix distortion shift = Ok self ->
  (length image_point = 3%nat ->
   exists u v, PinholeCamera.project_to_2d self image_point distort = Ok [u; v])
  /\ (length image_point <> 3%nat ->
      PinholeCamera.project_to_2d self image_point distort = Raise AssertionError).
Proof.
  intros Hinit. apply init_inv in Hinit. destruct Hinit as (_ & _ & Hd & ->).
  unfold PinholeCamera.project_to_2d.
  cbn [PinholeCamera.distortion PinholeCamera.shift].
  split; intros Hlen.
  - rewrite (proj2 (has_shape1_length 3 image_point) Hlen).
    destruct shift as [s|]; destruct distort; destruct distortion as [d|];
      shape_inv; cbn [bind];
      try (destruct (PinholeCamera.distort_xy _ _ _ _ _ _ _)); eauto.
  - destruct (has_shape1 3 image_point) eqn:Hs; [|reflexivity].
    apply has_shape1_length in Hs. contradiction.
Qed.

Lemma project_to_2d_outcomes_witness :
  exists u v,
    PinholeCamera.project_to_2d Triangulate.example_camera [1; 2; 3] true
    = Ok [u; v].
Proof.
  apply (project_to_2d_outcomes
           [[1; 0; 0; 0]; [0; 1; 0; 0]; [0; 0; 1; 0]; [0; 0; 0; 1]]
           [[2; 0; 3]; [0; 2; 4]; [0; 0; 1]] None None
           Triangulate.example_camera [1; 2; 3] true eq_refl).
  reflexivity.
Defined.

(** The projection of a constructed camera, written out. *)
Lemma project_to_2d_explicit pose matrix distortion shift self (a b c : R)
    (distort : bool) :
  PinholeCamera.init pose matrix distortion shift = Ok self ->
  PinholeCamera.project_to_2d self [a; b; c] distort
  = Ok [fst (PinholeCamera.spec_project self (a, b, c) distort);
        snd (PinholeCamera.spec_project self (a, b, c) distort)].
Proof.
  intros Hinit.
  apply init_inv in Hinit. destruct Hinit as (Hp & Hm & Hd & ->).
  shape_inv.
  unfold PinholeCamera.project_to_2d, PinholeCamera.spec_project,
    PinholeCamera.camera_frame in *.
  cbn [PinholeCamera.rotation PinholeCamera.translation PinholeCamera.matrix
       PinholeCamera.shift PinholeCamera.distortion has_shape1 length Nat.eqb
       firstn map matmul vadd combine dot fold_right item item2 nth fst snd
       bind] in *.
  assert (Hxyz :
    forall u v w t, (u * a + (v * b + (w * c + 0)) + t) = u * a + v * b + w * c + t)
    by (intros; ring).
  rewrite !Hxyz.
  destruct shift as [[s0 s1]|]; destruct distort; destruct distortion as [d|];
    cbn [fst snd bind]; shape_inv; cbn [bind];
    try rewrite distort_xy_spec; cbn [fst snd]; reflexivity.
Qed.

(** The pixel depends on the point only through its normalised camera
    coordinates X/Z and Y/Z. *)
Lemma spec_project_normalised self p p' d X Y Z X' Y' Z' :
  PinholeCamera.camera_frame self p = (X, Y, Z) ->
  PinholeCamera.camera_frame self p' = (X', Y', Z') ->
  X / Z = X' / Z' -> Y / Z = Y' / Z' ->
  PinholeCamera.spec_project self p d = PinholeCamera.spec_project self p' d.
Proof.
  intros Hp Hp' Hx Hy. unfold PinholeCamera.spec_project.
  rewrite Hp, Hp', Hx, Hy. reflexivity.
Qed.

(** Back-projection.  For a camera without shift, with the distortion
    switched off, nonzero focal lengths and a point in front of or behind
    the camera plane (Z nonzero), the pixel determines the ray of the point:
    X = Z (u - cx) / fx and Y = Z (v - cy) / fy. *)
Theorem project_to_2d_back_projection pose matrix distortion self
    (a b c u v X Y Z : R) :
  PinholeCamera.init pose matrix distortion None = Ok self ->
  PinholeCamera.camera_frame self (a, b, c) = (X, Y, Z) ->
  Z <> 0 ->
  item2 matrix 0 0 <> 0 ->
  item2 matrix 1 1 <> 0 ->
  PinholeCamera.project_to_2d self [a; b; c] false = Ok [u; v] ->
  X = Z * ((u - item2 matrix 0 2) / item2 matrix 0 0)
  /\ Y = Z * ((v - item2 matrix 1 2) / item2 matrix 1 1).
Proof.
  intros Hinit Hframe HZ Hfx Hfy Hproj.
  rewrite (project_to_2d_explicit _ _ _ _ _ _ _ _ _ Hinit) in Hproj.
  apply init_inv in Hinit. destruct Hinit as (_ & _ & _ & Hself).
  assert (Hm : PinholeCamera.matrix self = matrix) by now rewrite Hself.
  assert (Hs : PinholeCamera.shift self = None) by now rewrite Hself.
  unfold PinholeCamera.spec_project in Hproj.
  rewrite Hframe, Hm, Hs in Hproj. cbn [fst snd] in Hproj.
  inversion Hproj; subst u v. split; field; auto.
Qed.

Lemma project_to_2d_back_projection_witness :
  exists u v,
    PinholeCamera.project_to_2d Triangulate.example_camera [1; 2; 4] false
    = Ok [u; v]
    /\ 1 = 4 * ((u - 3) / 2) /\ 2 = 4 * ((v - 4) / 2).
Proof.
  assert (Hrun : { uv : R * R |
            PinholeCamera.project_to_2d Triangulate.example_camera [1; 2; 4] false
            = Ok [fst uv; snd uv] }).
  { eexists (_, _). reflexivity. }
  destruct Hrun as [[u v] Hrun]. cbn [fst snd] in Hrun.
  exists u, v. split; [exact Hrun|].
  destruct (project_to_2d_back_projection
              [[1; 0; 0; 0]; [0; 1; 0; 0]; [0; 0; 1; 0]; [0; 0; 0; 1]]
              [[2; 0; 3]; [0; 2; 4]; [0; 0; 1]] None
              Triangulate.example_camera 1 2 4 u v
              (1 * 1 + 0 * 2 + 0 * 4 + 0) (0 * 1 + 1 * 2 + 0 * 4 + 0)
              (0 * 1 + 0 * 2 + 1 * 4 + 0) eq_refl eq_refl) as [HX HY].
  - lra.
  - cbn. lra.
  - cbn. lra.
  - exact Hrun.
  - cbn [item2 item nth] in HX, HY. split; lra.
Defined.

(** Depth ambiguity.  For a camera at the origin of the world frame (the
    translation column of its pose is zero), all the points of a ray through
    the origin have the same pixel: scaling a point by a nonzero factor does
    not change its projection, with or without distortion and shift. *)
Theorem project_to_2d_ray_invariant pose matrix distortion shift self
    (a b c s X Y Z : R) (distort : bool) :
  PinholeCamera.init pose matrix distortion shift = Ok self ->
  (forall i, (i < 3)%nat -> item2 pose i 3 = 0) ->
  PinholeCamera.camera_frame self (a, b, c) = (X, Y, Z) ->
  Z <> 0 ->
  s <> 0 ->
  PinholeCamera.project_to_2d self [s * a; s * b; s * c] distort
  = PinholeCamera.project_to_2d self [a; b; c] distort.
Proof.
  intros Hinit Ht Hframe HZ Hs.
  rewrite !(project_to_2d_explicit _ _ _ _ _ _ _ _ _ Hinit).
  assert (Hscaled :
    PinholeCamera.camera_frame self (s * a, s * b, s * c) = (s * X, s * Y, s * Z)).
  { apply init_inv in Hinit. destruct Hinit as (Hp & _ & _ & ->).
    shape_inv.
    pose proof (Ht 0%nat ltac:(lia)) as H0.
    pose proof (Ht 1%nat ltac:(lia)) as H1.
    pose proof (Ht 2%nat ltac:(lia)) as H2.
    unfold PinholeCamera.camera_frame in *.
    cbn [PinholeCamera.rotation PinholeCamera.translation firstn map item
         item2 nth] in *.
    rewrite H0, H1, H2 in *. inversion Hframe; subst X Y Z.
    f_equal; [f_equal|]; ring. }
  rewrite (spec_project_normalised self (s * a, s * b, s * c) (a, b, c) distort
             _ _ _ _ _ _ Hscaled Hframe); [reflexivity| |]; field; auto.
Qed.

Lemma project_to_2d_ray_invariant_witness :
  PinholeCamera.project_to_2d Triangulate.example_camera [2 * 1; 2 * 2; 2 * 4] true
  = PinholeCamera.project_to_2d Triangulate.example_camera [1; 2; 4] true.
Proof.
  apply (project_to_2d_ray_invariant
           [[1; 0; 0; 0]; [0; 1; 0; 0]; [0; 0; 1; 0]; [0; 0; 0; 1]]
           [[2; 0; 3]; [0; 2; 4]; [0; 0; 1]] None None
           Triangulate.example_camera 1 2 4 2
           (1 * 1 + 0 * 2 + 0 * 4 + 0) (0 * 1 + 1 * 2 + 0 * 4 + 0)
           (0 * 1 + 0 * 2 + 1 * 4 + 0) true eq_refl).
  - intros i Hi. destruct i as [|[|[|i]]]; [reflexivity..|lia].
  - reflexivity.
  - lra.
  - lra.
Defined.

Lemma shift_pixel (fx x s c : R) :
  fx <> 0 -> fx * (x + s / fx) + c = fx * x + c + s.
Proof. intros H. field. exact H. Qed.

(** The shift is a shift in pixels.  With the distortion switched off and
    nonzero focal lengths, a camera with shift (s0, s1) projects every point
    to the pixel of the same camera without shift, moved by (s0, s1). *)
Theorem project_to_2d_shift_in_pixels pose matrix distortion
    (s0 s1 : R) self self0 (a b c u v : R) :
  PinholeCamera.init pose matrix distortion (Some (s0, s1)) = Ok self ->
  PinholeCamera.init pose matrix distortion None = Ok self0 ->
  item2 matrix 0 0 <> 0 ->
  item2 matrix 1 1 <> 0 ->
  PinholeCamera.project_to_2d self0 [a; b; c] false = Ok [u; v] ->
  PinholeCamera.project_to_2d self [a; b; c] false = Ok [u + s0; v + s1].
Proof.
  intros Hinit Hinit0 Hfx Hfy Hproj.
  rewrite (project_to_2d_explicit _ _ _ _ _ _ _ _ _ Hinit0) in Hproj.
  rewrite (project_to_2d_explicit _ _ _ _ _ _ _ _ _ Hinit).
  apply init_inv in Hinit, Hinit0.
  destruct Hinit as (_ & _ & _ & ->). destruct Hinit0 as (_ & _ & _ & ->).
  unfold PinholeCamera.spec_project, PinholeCamera.camera_frame in *.
  cbn [PinholeCamera.rotation PinholeCamera.translation PinholeCamera.matrix
       PinholeCamera.shift PinholeCamera.distortion fst snd] in *.
  injection Hproj as Hu Hv. subst u v.
  rewrite !shift_pixel by assumption. reflexivity.
Qed.

Lemma project_to_2d_shift_in_pixels_witness :
  exists u v,
    PinholeCamera.project_to_2d Triangulate.example_camera [1; 2; 4] false
    = Ok [u; v]
    /\ PinholeCamera.project_to_2d
         (PinholeCamera.mk (PinholeCamera.pose Triangulate.example_camera)
            (PinholeCamera.matrix Triangulate.example_camera) None
            (PinholeCamera.rotation Triangulate.example_camera)
            (PinholeCamera.translation Triangulate.example_camera)
            (Some (5, 7)))
         [1; 2; 4] false
       = Ok [u + 5; v + 7].
Proof.
  assert (Hrun : { uv : R * R |
            PinholeCamera.project_to_2d Triangulate.example_camera [1; 2; 4] false
            = Ok [fst uv; snd uv] }).
  { eexists (_, _). reflexivity. }
  destruct Hrun as [[u v] Hrun]. cbn [fst snd] in Hrun.
  exists u, v. split; [exact Hrun|].
  apply (project_to_2d_shift_in_pixels
           [[1; 0; 0; 0]; [0; 1; 0; 0]; [0; 0; 1; 0]; [0; 0; 0; 1]]
           [[2; 0; 3]; [0; 2; 4]; [0; 0; 1]] None 5 7 _
           Triangulate.example_camera 1 2 4 u v eq_refl eq_refl).
  - cbn. lra.
  - cbn. lra.
  - exact Hrun.
Defined.

(** ** DynamicCameras: agreement with the pinhole camera, state, outcomes *)



(** [forward] keeps no state of its own: every buffer is overwritten, so
    what it returns depends on the object only through its [distort] flag;
    and calling it again on the object it left behind gives the same output
    and leaves the object as it is. *)
Theorem forward_overwrites_buffers (self1 self2 : DynamicCameras.t)
    (coefficients points : Tensor) :
  DynamicCameras.distort self1 = DynamicCameras.distort self2 ->
  DynamicCameras.forward self1 coefficients points
  = DynamicCameras.forward self2 coefficients points
  /\ (forall out self',
        DynamicCameras.forward self1 coefficients points = Ok (out, self') ->
        DynamicCameras.forward self' coefficients points = Ok (out, self')).
Proof.
  intros Hd.
  assert (Hext : forall s1 s2,
            DynamicCameras.distort s1 = DynamicCameras.distort s2 ->
            DynamicCameras.extract_coefficients s1 coefficients
            = DynamicCameras.extract_coefficients s2 coefficients).
  { intros s1 s2 H. unfold DynamicCameras.extract_coefficients. now rewrite H. }
  assert (Hfwd : forall s1 s2,
            DynamicCameras.distort s1 = DynamicCameras.distort s2 ->
            DynamicCameras.forward s1 coefficients points
            = DynamicCameras.forward s2 coefficients points).
  { intros s1 s2 H. unfold DynamicCameras.forward. now rewrite (Hext s1 s2 H). }
  split; [now apply Hfwd|].
  intros out self' Hf. rewrite <- Hf. apply Hfwd.
  apply forward_inv in Hf. destruct Hf as (He & _).
  apply extract_coefficients_inv in He. destruct He as (_ & _ & _ & ->).
  reflexivity.
Qed.

Lemma forward_overwrites_buffers_witness :
  DynamicCameras.forward (DynamicCameras.init true)
    (mkTensor [1; 3; 22]%nat (fun idx => INR (ix idx 2) + 1))
    (mkTensor [1; 1; 3]%nat (fun _ => 1))
  = DynamicCameras.forward
      (DynamicCameras.mk true (zeros [7]%nat) (zeros []) (zeros []) (zeros [])
         (zeros []) (zeros []) (zeros []) (zeros []))
      (mkTensor [1; 3; 22]%nat (fun idx => INR (ix idx 2) + 1))
      (mkTensor [1; 1; 3]%nat (fun _ => 1)).
Proof.
  apply (forward_overwrites_buffers (DynamicCameras.init true)
           (DynamicCameras.mk true (zeros [7]%nat) (zeros []) (zeros []) (zeros [])
              (zeros []) (zeros []) (zeros []) (zeros []))).
  reflexivity.
Defined.

(** The assertions of [forward].  It raises an assertion error exactly when
    the points are not of rank 3 with 3 coordinates or the coefficients are
    not of rank 3 with 3 cameras of 22 coefficients; and whenever it
    returns, the output has shape (batch of the points) x 3 x (number of
    points) x 2. *)
Theorem forward_assertions (self : DynamicCameras.t)
    (coefficients points : Tensor) :
  (DynamicCameras.forward self coefficients points = Raise AssertionError
   <-> ~ (dim points = 3%nat /\ size points 2 = 3%nat
          /\ dim coefficients = 3%nat /\ size coefficients 1 = 3%nat
          /\ size coefficients 2 = 22%nat))
  /\ (forall out self',
        DynamicCameras.forward self coefficients points = Ok (out, self') ->
        shape out = [size points 0; 3; size points 1; 2]%nat).
Proof.
  split.
  - unfold DynamicCameras.forward, DynamicCameras.extract_coefficients,
      DynamicCameras.n_coeffs, DynamicCameras.N_CAM_COEFFICIENTS.
    destruct (Nat.eqb_spec (dim points) 3); [|split; [tauto|reflexivity]].
    destruct (Nat.eqb_spec (size points 2) 3); [|split; [tauto|reflexivity]].
    destruct (Nat.eqb_spec (dim coefficients) 3);
      [|cbn [bind]; split; [tauto|reflexivity]].
    destruct (Nat.eqb_spec (size coefficients 1) 3);
      [|cbn [bind]; split; [tauto|reflexivity]].
    destruct (Nat.eqb_spec (size coefficients 2) 22);
      [|cbn [bind]; split; [tauto|reflexivity]].
    cbn [bind]. destruct (negb _); split; try discriminate; tauto.
  - intros out self' Hf. apply forward_inv in Hf. destruct Hf as (_ & ->).
    reflexivity.
Qed.

(** ** triangulate: arguments, best result, re-projections *)

Lemma check_arguments_true_iff (image_points : list (list (list R))) x0 :
  Triangulate.check_arguments image_points x0 = true
  <-> length image_points = 3%nat
      /\ (forall view pt, In view image_points -> In pt view -> length pt = 2%nat)
      /\ (forall v, x0 = Some v -> length v = 3%nat).
Proof.
  unfold Triangulate.check_arguments.
  rewrite !andb_true_iff, Nat.eqb_eq, forallb_forall. split.
  - intros ((Hl & Hv) & Hx). split; [exact Hl|]. split.
    + intros view pt Hview Hpt. specialize (Hv view Hview).
      rewrite forallb_forall in Hv. now apply has_shape1_length, Hv.
    + intros v ->. now apply has_shape1_length.
  - intros (Hl & Hv & Hx). split; [split; [exact Hl|]|].
    + intros view Hview. apply forallb_forall. intros pt Hpt.
      apply has_shape1_length. eauto.
    + destruct x0 as [v|]; [|reflexivity]. apply has_shape1_length. auto.
Qed.

Lemma mapM_Forall2 {A B : Type} (g : A -> result B) (l : list A) (l' : list B) :
  mapM g l = Ok l' -> Forall2 (fun a b => g a = Ok b) l l'.
Proof.
  revert l'. induction l as [|a l IH]; intros l'; simpl.
  - intros H; inversion H. constructor.
  - destruct (g a) as [b|e] eqn:Hg; [|discriminate].
    destruct (mapM g l) as [bs|e]; [|discriminate].
    intros H; inversion H; subst. constructor; auto.
Qed.

Lemma mapM_total {A B : Type} (g : A -> result B) (l : list A) :
  Forall (fun a => exists b, g a = Ok b) l -> exists l', mapM g l = Ok l'.
Proof.
  induction 1 as [|a l [b Hb] Hl [l' IH]]; simpl; [eauto|].
  rewrite Hb, IH. eauto.
Qed.

Lemma Forall2_in_r {A B : Type} (P : A -> B -> Prop) (l : list A) (l' : list B) b :
  Forall2 P l l' -> In b l' -> exists a, In a l /\ P a b.
Proof.
  induction 1 as [|a b' l l' Hab Hl IH]; simpl; [tauto|].
  intros [<-|Hb]; [exists a; auto|].
  destruct (IH Hb) as (a' & Ha' & Hp). exists a'. auto.
Qed.

Lemma Forall2_in_l {A B : Type} (P : A -> B -> Prop) (l : list A) (l' : list B) a :
  Forall2 P l l' -> In a l -> exists b, In b l' /\ P a b.
Proof.
  induction 1 as [|a' b l l' Hab Hl IH]; simpl; [tauto|].
  intros [<-|Ha]; [exists b; auto|].
  destruct (IH Ha) as (b' & Hb' & Hp). exists b'. auto.
Qed.

(** Arguments that fail an assertion.  When there are not exactly three
    views, or some candidate point does not have two coordinates, or the
    initial guess does not have three, [triangulate] raises an assertion
    error and never calls the minimizer. *)
Theorem triangulate_rejects_malformed_arguments
    (minimize :
       (ndarray1 -> list (list R) -> result R) ->
       ndarray1 -> list (list R) -> Triangulate.method -> Triangulate.options ->
       option R -> Triangulate.OptimizeResult)
    (image_points : list (list (list R))) (cameras : Triangulate.Cameras)
    (x0 : option ndarray1) (matching_threshold : R) :
  length image_points <> 3%nat
  \/ (exists view pt, In view image_points /\ In pt view /\ length pt <> 2%nat)
  \/ (exists v, x0 = Some v /\ length v <> 3%nat) ->
  Triangulate.triangulate_traced minimize image_points cameras x0
    matching_threshold
  = (Raise AssertionError, []).
Proof.
  intros Hbad. unfold Triangulate.triangulate_traced.
  destruct (Triangulate.check_arguments image_points x0) eqn:Hc; [|reflexivity].
  apply check_arguments_true_iff in Hc. destruct Hc as (Hl & Hv & Hx).
  destruct Hbad as [Hbad|[(view & pt & Hview & Hpt & Hbad)|(v & Hv0 & Hbad)]].
  - contradiction.
  - specialize (Hv view pt Hview Hpt). contradiction.
  - specialize (Hx v Hv0). contradiction.
Qed.

Lemma triangulate_rejects_malformed_arguments_witness :
  Triangulate.triangulate_traced Triangulate.example_minimize
    [ [[0; 0]]; [[0; 0; 7]]; [[1; 1]] ] Triangulate.example_cameras None 1000
  = (Raise AssertionError, []).
Proof.
  apply (triangulate_rejects_malformed_arguments Triangulate.example_minimize
           [ [[0; 0]]; [[0; 0; 7]]; [[1; 1]] ] Triangulate.example_cameras
           None 1000).
  right. left. exists [[0; 0; 7]], [0; 0; 7].
  split; [simpl; auto|]. split; [simpl; auto|]. simpl. lia.
Defined.

Section TriangulateMore.

Variable minimize :
  (ndarray1 -> list (list R) -> result R) ->
  ndarray1 -> list (list R) -> Triangulate.method -> Triangulate.options ->
  option R -> Triangulate.OptimizeResult.

Variable image_points : list (list (list R)).
Variable cameras : Triangulate.Cameras.
Variable x0 : option ndarray1.
Variable matching_threshold : R.

Let st :=
  Triangulate.solve_combinations minimize image_points cameras
    (Triangulate.initial_guess x0).
Let survivors :=
  Triangulate.sort
    (filter (Triangulate.below matching_threshold) (Triangulate.res_3d st)).

(** What a returned list is made of. *)
Lemma returned_full (l : list Triangulate.ObjectPoint) :
  Triangulate.triangulate minimize image_points cameras x0 matching_threshold
  = Ok l ->
  Triangulate.check_arguments image_points x0 = true
  /\ survivors <> []
  /\ Forall2 (fun r r' =>
                Triangulate.reproject
                  (Triangulate.get_camera_model_triplet cameras) r = Ok r')
             survivors l.
Proof.
  rewrite triangulate_cases. fold st. fold survivors.
  destruct (Triangulate.check_arguments image_points x0); [|discriminate].
  cbn [negb]. destruct survivors as [|r rs] eqn:Hs; [discriminate|].
  intros H. apply mapM_Forall2 in H. repeat split; auto. discriminate.
Qed.

Lemma survivors_in (r : Triangulate.ObjectPoint) :
  In r survivors
  <-> In r (Triangulate.res_3d st) /\ Triangulate.error r < matching_threshold.
Proof.
  unfold survivors. rewrite <- below_true_iff, <- filter_In.
  split; apply Permutation_in; [apply sort_perm|symmetry; apply sort_perm].
Qed.

Lemma survivors_sorted : StronglySorted Triangulate.error_le survivors.
Proof. apply sort_sorted. Qed.

End TriangulateMore.

(** The best result comes first.  When [triangulate] returns, the first
    object point of the list has the least error of all the combinations
    that were tried, filtered out or not: its error is the [best_err] the
    loop computed. *)
Theorem triangulate_best_first
    (minimize :
       (ndarray1 -> list (list R) -> result R) ->
       ndarray1 -> list (list R) -> Triangulate.method -> Triangulate.options ->
       option R -> Triangulate.OptimizeResult)
    (image_points : list (list (list R))) (cameras : Triangulate.Cameras)
    (x0 : option ndarray1) (matching_threshold : R)
    (l : list Triangulate.ObjectPoint) :
  Triangulate.triangulate minimize image_points cameras x0 matching_threshold
  = Ok l ->
  let st :=
    Triangulate.solve_combinations minimize image_points cameras
      (Triangulate.initial_guess x0) in
  exists r rest,
    l = r :: rest
    /\ Triangulate.best_err st = Finite (Triangulate.error r)
    /\ (forall c, In c (Triangulate.res_3d st) ->
          Triangulate.error r <= Triangulate.error c)
    /\ (forall r', In r' l -> Triangulate.error r <= Triangulate.error r').
Proof.
  intros Hret st.
  pose proof (returned_full _ _ _ _ _ _ Hret) as (_ & Hne & Hall).
  pose proof (survivors_sorted minimize image_points cameras x0
                matching_threshold) as Hsorted.
  pose proof (survivors_in minimize image_points cameras x0
                matching_threshold) as Hin.
  pose proof (best_err_minimum minimize image_points cameras x0) as Hmin.
  cbv zeta in Hne, Hall, Hsorted, Hin, Hmin. fold st in Hne, Hall, Hsorted, Hin, Hmin.
  destruct (Triangulate.sort _) as [|r0 rs] eqn:Hs; [congruence|].
  inversion Hall as [|? r ? rest Hr Hrest]; subst.
  apply reproject_forget in Hr. destruct Hr as [_ Herr].
  inversion Hsorted as [|? ? Hrs Hle]; subst.
  rewrite Forall_forall in Hle.
  assert (H0 : In r0 (Triangulate.res_3d st)
               /\ Triangulate.error r0 < matching_threshold)
    by (apply Hin; now left).
  assert (Hleast : forall c, In c (Triangulate.res_3d st) ->
                     Triangulate.error r <= Triangulate.error c).
  { intros c Hc. rewrite Herr.
    destruct (Rlt_dec (Triangulate.error c) matching_threshold) as [Hb|Hb].
    - assert (Hcs : In c (r0 :: rs)) by (apply Hin; auto).
      destruct Hcs as [<-|Hcs]; [lra|]. apply Hle. exact Hcs.
    - lra. }
  exists r, rest. split; [reflexivity|]. split; [|split; [exact Hleast|]].
  - destruct (Triangulate.best_err st) as [m|]; simpl in Hmin.
    + destruct Hmin as [Hm Hall_m]. rewrite Forall_forall in Hall_m.
      apply in_map_iff in Hm. destruct Hm as (c & <- & Hc).
      f_equal. apply Rle_antisym.
      * rewrite Herr. apply Hall_m. apply in_map. apply H0.
      * now apply Hleast.
    + destruct H0 as [H0 _]. apply (in_map Triangulate.error) in H0.
      rewrite Hmin in H0. contradiction.
  - intros r' Hr'. destruct Hr' as [<-|Hr']; [lra|].
    destruct (Forall2_in_r _ _ _ _ Hrest Hr') as (y & Hy & Hyr).
    apply reproject_forget in Hyr. destruct Hyr as [_ Hyerr].
    rewrite Herr, Hyerr. apply Hle. exact Hy.
Qed.

Lemma triangulate_best_first_witness :
  exists l r rest,
    Triangulate.triangulate Triangulate.example_minimize
      [ [[3; 0]; [0; 0]; [5; 0]]; [[0; 0]]; [[0; 0]] ]
      Triangulate.example_cameras None 5 = Ok l
    /\ l = r :: rest
    /\ (forall r', In r' l -> Triangulate.error r <= Triangulate.error r').
Proof.
  assert (Hrun : { l | Triangulate.triangulate Triangulate.example_minimize
                         [ [[3; 0]; [0; 0]; [5; 0]]; [[0; 0]]; [[0; 0]] ]
                         Triangulate.example_cameras None 5 = Ok l }).
  { eexists. run_triangulate. reflexivity. }
  destruct Hrun as [l Hrun].
  destruct (triangulate_best_first _ _ _ _ _ _ Hrun) as (r & rest & Hl & _ & _ & Hle).
  exists l, r, rest. auto.
Defined.

Lemma NoDup_map_filter {K V : Type} (key : V -> K) (keep : V -> bool) :
  forall results : list V,
    NoDup (map key results) -> NoDup (map key (filter keep results)).
Proof.
  intros results Hnd. induction results as [|r results IH]; simpl; [exact Hnd|].
  inversion Hnd as [|? ? Hnotin Hnd']; subst.
  destruct (keep r); [|auto]. simpl. constructor; [|auto].
  intros Hin. apply Hnotin. apply in_map_iff in Hin.
  destruct Hin as (x & Hx & Hxin). apply filter_In in Hxin.
  apply in_map_iff. exists x. tauto.
Qed.

Lemma reproject_inv cams r r' :
  Triangulate.reproject cams r = Ok r' ->
  exists pts,
    mapM (fun c =>
            bind (Triangulate.index_error (nth_error cams c))
                 (fun cam => PinholeCamera.project_to_2d cam
                               (Triangulate.point_3d r) true))
         Triangulate.CAMERA_IDXS = Ok pts
    /\ r' = Triangulate.mkObjectPoint (Triangulate.cameras r)
              (Triangulate.point_3d r) (Triangulate.error r)
              (Triangulate.source_point_idxs r) (Some pts).
Proof.
  unfold Triangulate.reproject.
  destruct (mapM _ _) as [pts|e]; [|discriminate].
  cbn [bind]. intros H; inversion H. eauto.
Qed.

Lemma reprojected_sources cams (rs rs' : list Triangulate.ObjectPoint) :
  Forall2 (fun r r' => Triangulate.reproject cams r = Ok r') rs rs' ->
  map Triangulate.source_point_idxs rs' = map Triangulate.source_point_idxs rs.
Proof.
  induction 1 as [|r r' rs rs' Hr Hrs IH]; [reflexivity|].
  apply reproject_inv in Hr. destruct Hr as (pts & _ & ->).
  simpl. now rewrite IH.
Qed.

(** What the returned object points are.  For three views, every returned
    object point is the candidate of one triple of keys that are in range,
    with the re-projections attached: one 2D point per camera of the
    triplet, each the projection (with distortion) of the object's 3D point
    through that camera.  No two returned object points come from the same
    triple, so there are at most n0*n1*n2 of them. *)
Theorem triangulate_results_are_reprojected
    (minimize :
       (ndarray1 -> list (list R) -> result R) ->
       ndarray1 -> list (list R) -> Triangulate.method -> Triangulate.options ->
       option R -> Triangulate.OptimizeResult)
    (v0 v1 v2 : list (list R)) (cameras : Triangulate.Cameras)
    (x0 : option ndarray1) (matching_threshold : R)
    (l : list Triangulate.ObjectPoint) :
  Triangulate.triangulate minimize [v0; v1; v2] cameras x0 matching_threshold
  = Ok l ->
  let guess := Triangulate.initial_guess x0 in
  let cams := Triangulate.get_camera_model_triplet cameras in
  (length l <= length v0 * length v1 * length v2)%nat
  /\ NoDup (map Triangulate.source_point_idxs l)
  /\ Forall (fun r =>
       (exists i j k,
          (i < length v0 /\ j < length v1 /\ k < length v2)%nat
          /\ Triangulate.forget r
             = Triangulate.candidate minimize [v0; v1; v2] cameras guess [i; j; k])
       /\ exists pts,
            Triangulate.reprojected_points_2d r = Some pts
            /\ Forall2 (fun c p =>
                 exists cam,
                   nth_error cams c = Some cam
                   /\ PinholeCamera.project_to_2d cam (Triangulate.point_3d r) true
                      = Ok p)
               [0; 1; 2]%nat pts) l.
Proof.
  intros Hret guess cams.
  pose proof (returned_full _ _ _ _ _ _ Hret) as (_ & _ & Hall).
  pose proof (survivors_in minimize [v0; v1; v2] cameras x0
                matching_threshold) as Hin.
  cbv zeta in Hall, Hin. fold guess in Hall, Hin. fold cams in Hall.
  rewrite solve_combinations_eq, point_key_combinations_three in Hall, Hin.
  cbn [Triangulate.res_3d] in Hall, Hin.
  set (triples := Triangulate.key_triples (length v0) (length v1) (length v2)) in *.
  set (cand := Triangulate.candidate minimize [v0; v1; v2] cameras guess) in *.
  set (survivors := Triangulate.sort
                      (filter (Triangulate.below matching_threshold)
                         (map cand triples))) in *.
  assert (Hperm : Permutation survivors
                    (filter (Triangulate.below matching_threshold)
                       (map cand triples))) by apply sort_perm.
  assert (Hsrc : map Triangulate.source_point_idxs l
                 = map Triangulate.source_point_idxs survivors).
  { exact (reprojected_sources _ _ _ Hall). }
  split; [|split].
  - rewrite <- (Forall2_length Hall), (Permutation_length Hperm).
    etransitivity; [apply filter_length_le|].
    rewrite length_map. unfold triples. now rewrite length_key_triples.
  - rewrite Hsrc.
    apply (Permutation_NoDup (l := map Triangulate.source_point_idxs
             (filter (Triangulate.below matching_threshold) (map cand triples)))).
    + symmetry. now apply Permutation_map.
    + apply NoDup_map_filter. rewrite map_map. cbn [cand Triangulate.candidate
        Triangulate.source_point_idxs]. rewrite map_id. apply NoDup_key_triples.
  - apply Forall_forall. intros r' Hr'.
    destruct (Forall2_in_r _ _ _ _ Hall Hr') as (r & Hr & Hrep).
    apply Hin in Hr. destruct Hr as [Hr _].
    apply in_map_iff in Hr. destruct Hr as (t & <- & Ht).
    apply in_key_triples in Ht. destruct Ht as (i & j & k & -> & Hrange).
    pose proof (reproject_forget _ _ _ Hrep) as [Hf _].
    apply reproject_inv in Hrep. destruct Hrep as (pts & Hpts & ->).
    split.
    + exists i, j, k. split; [exact Hrange|]. reflexivity.
    + exists pts. split; [reflexivity|].
      apply mapM_Forall2 in Hpts. unfold Triangulate.CAMERA_IDXS in Hpts.
      eapply Forall2_impl; [|exact Hpts].
      intros c p Hcp. cbn beta in Hcp.
      cbn [Triangulate.point_3d].
      destruct (nth_error cams c) as [cam|]; [|discriminate].
      exists cam. split; [reflexivity|exact Hcp].
Qed.

Lemma triangulate_results_are_reprojected_witness :
  exists l,
    Triangulate.triangulate Triangulate.example_minimize
      [ [[3; 0]; [0; 0]; [5; 0]]; [[0; 0]]; [[0; 0]] ]
      Triangulate.example_cameras None 5 = Ok l
    /\ (length l <= 3 * 1 * 1)%nat
    /\ NoDup (map Triangulate.source_point_idxs l).
Proof.
  assert (Hrun : { l | Triangulate.triangulate Triangulate.example_minimize
                         [ [[3; 0]; [0; 0]; [5; 0]]; [[0; 0]]; [[0; 0]] ]
                         Triangulate.example_cameras None 5 = Ok l }).
  { eexists. run_triangulate. reflexivity. }
  destruct Hrun as [l Hrun]. exists l. split; [exact Hrun|].
  destruct (triangulate_results_are_reprojected _ _ _ _ _ _ _ _ Hrun)
    as (Hlen & Hnd & _).
  split; assumption.
Defined.

(** ** triangulate: ties, healthy collaborators, thresholds *)

Lemma filter_has_error_insert (e : R) (r : Triangulate.ObjectPoint)
    (l : list Triangulate.ObjectPoint) :
  filter (TriangulateOrder.has_error e) (Triangulate.insert r l)
  = filter (TriangulateOrder.has_error e) (r :: l).
Proof.
  induction l as [|h l IH]; [reflexivity|].
  cbn [Triangulate.insert].
  destruct (Rlt_dec (Triangulate.error h) (Triangulate.error r)) as [Hlt|Hge];
    [|reflexivity].
  cbn [filter] in *. rewrite IH.
  unfold TriangulateOrder.has_error.
  destruct (Req_dec_T (Triangulate.error h) e) as [Hh|Hh];
    destruct (Req_dec_T (Triangulate.error r) e) as [Hr|Hr];
    try reflexivity.
  exfalso. lra.
Qed.

Lemma filter_has_error_sort (e : R) (l : list Triangulate.ObjectPoint) :
  filter (TriangulateOrder.has_error e) (Triangulate.sort l)
  = filter (TriangulateOrder.has_error e) l.
Proof.
  induction l as [|r l IH]; [reflexivity|].
  cbn [Triangulate.sort fold_right]. fold (Triangulate.sort l).
  rewrite filter_has_error_insert. cbn [filter]. now rewrite IH.
Qed.

(** Ties keep the order of the combinations.  Among the returned object
    points, those that have the same error appear in the order in which
    [itertools.product] enumerated their combinations: the sort is stable. *)
Theorem triangulate_ties_in_product_order
    (minimize :
       (ndarray1 -> list (list R) -> result R) ->
       ndarray1 -> list (list R) -> Triangulate.method -> Triangulate.options ->
       option R -> Triangulate.OptimizeResult)
    (image_points : list (list (list R))) (cameras : Triangulate.Cameras)
    (x0 : option ndarray1) (matching_threshold : R)
    (l : list Triangulate.ObjectPoint) :
  Triangulate.triangulate minimize image_points cameras x0 matching_threshold
  = Ok l ->
  forall e : R,
    filter (TriangulateOrder.has_error e) (map Triangulate.forget l)
    = filter (TriangulateOrder.has_error e)
        (filter (Triangulate.below matching_threshold)
           (map (Triangulate.candidate minimize image_points cameras
                   (Triangulate.initial_guess x0))
                (Triangulate.point_key_combinations image_points))).
Proof.
  intros Hret e. apply returned_inv in Hret. destruct Hret as (Hf & _ & _).
  rewrite Hf, filter_has_error_sort, solve_combinations_eq. reflexivity.
Qed.

Lemma triangulate_ties_in_product_order_witness :
  exists l,
    Triangulate.triangulate Triangulate.example_minimize
      [ [[3; 0]; [0; 0]; [5; 0]]; [[0; 0]]; [[0; 0]] ]
      Triangulate.example_cameras None 5 = Ok l
    /\ filter (TriangulateOrder.has_error 0) (map Triangulate.forget l)
       = filter (TriangulateOrder.has_error 0)
           (filter (Triangulate.below 5)
              (map (Triangulate.candidate Triangulate.example_minimize
                      [ [[3; 0]; [0; 0]; [5; 0]]; [[0; 0]]; [[0; 0]] ]
                      Triangulate.example_cameras (Triangulate.initial_guess None))
                   (Triangulate.point_key_combinations
                      [ [[3; 0]; [0; 0]; [5; 0]]; [[0; 0]]; [[0; 0]] ]))).
Proof.
  assert (Hrun : { l | Triangulate.triangulate Triangulate.example_minimize
                         [ [[3; 0]; [0; 0]; [5; 0]]; [[0; 0]]; [[0; 0]] ]
                         Triangulate.example_cameras None 5 = Ok l }).
  { eexists. run_triangulate. reflexivity. }
  destruct Hrun as [l Hrun]. exists l. split; [exact Hrun|].
  apply (triangulate_ties_in_product_order _ _ _ _ _ _ Hrun).
Defined.

Lemma initial_guess_length (x0 : option ndarray1) image_points :
  Triangulate.check_arguments image_points x0 = true ->
  length (Triangulate.initial_guess x0) = 3%nat.
Proof.
  intros H. apply check_arguments_true_iff in H. destruct H as (_ & _ & Hx).
  destruct x0 as [v|]; [now apply Hx|reflexivity].
Qed.

(** With healthy collaborators a point of three coordinates can always be
    re-projected. *)
Lemma reproject_total minimize cameras (r : Triangulate.ObjectPoint) :
  TriangulateOrder.healthy minimize cameras ->
  length (Triangulate.point_3d r) = 3%nat ->
  exists r', Triangulate.reproject
               (Triangulate.get_camera_model_triplet cameras) r = Ok r'.
Proof.
  intros (_ & Hlen & Hcams) Hp.
  destruct (Triangulate.get_camera_model_triplet cameras)
    as [|c0 [|c1 [|c2 [|c3 cs]]]]; try discriminate.
  apply has_shape1_length, has_shape1_inv3 in Hp.
  destruct Hp as (a & b & c & Hp).
  unfold Triangulate.reproject, Triangulate.CAMERA_IDXS. rewrite Hp.
  inversion Hcams as [|? ? (p0 & m0 & d0 & s0 & H0) Hcams1]; subst.
  inversion Hcams1 as [|? ? (p1 & m1 & d1 & s1 & H1) Hcams2]; subst.
  inversion Hcams2 as [|? ? (p2 & m2 & d2 & s2 & H2) _]; subst.
  cbn [mapM nth_error Triangulate.index_error bind].
  rewrite (project_to_2d_explicit _ _ _ _ _ a b c true H0),
    (project_to_2d_explicit _ _ _ _ _ a b c true H1),
    (project_to_2d_explicit _ _ _ _ _ a b c true H2).
  cbn [bind]. eauto.
Qed.

Section HealthyTriangulate.

Variable minimize :
  (ndarray1 -> list (list R) -> result R) ->
  ndarray1 -> list (list R) -> Triangulate.method -> Triangulate.options ->
  option R -> Triangulate.OptimizeResult.

Variable image_points : list (list (list R)).
Variable cameras : Triangulate.Cameras.
Variable x0 : option ndarray1.

Hypothesis collaborators : TriangulateOrder.healthy minimize cameras.
Hypothesis arguments : Triangulate.check_arguments image_points x0 = true.

Let st :=
  Triangulate.solve_combinations minimize image_points cameras
    (Triangulate.initial_guess x0).

Lemma candidates_have_three_coordinates :
  Forall (fun r => length (Triangulate.point_3d r) = 3%nat) (Triangulate.res_3d st).
Proof.
  subst st. rewrite solve_combinations_eq. cbn [Triangulate.res_3d].
  apply Forall_forall. intros r Hr. apply in_map_iff in Hr.
  destruct Hr as (t & <- & _). cbn [Triangulate.candidate Triangulate.point_3d].
  destruct collaborators as (Hx & _). rewrite Hx.
  exact (initial_guess_length _ _ arguments).
Qed.

(** The outcome of [triangulate] for one threshold. *)
Lemma healthy_outcome (thr : R) :
  let survivors :=
    Triangulate.sort (filter (Triangulate.below thr) (Triangulate.res_3d st)) in
  (survivors = [] /\
   Triangulate.triangulate minimize image_points cameras x0 thr
   = Raise (ValueError (ZeroPointsBelowThreshold (Triangulate.best_err st) thr)))
  \/ (survivors <> [] /\
      exists l,
        Triangulate.triangulate minimize image_points cameras x0 thr = Ok l
        /\ Forall2 (fun r r' =>
                      Triangulate.reproject
                        (Triangulate.get_camera_model_triplet cameras) r = Ok r')
                   survivors l).
Proof.
  intros survivors. rewrite triangulate_cases. fold st. fold survivors.
  rewrite arguments. cbn [negb].
  destruct survivors as [|r rs] eqn:Hs; [left; auto|right].
  split; [discriminate|].
  destruct (mapM_total (Triangulate.reproject
                          (Triangulate.get_camera_model_triplet cameras))
              (r :: rs)) as [l Hl].
  - apply Forall_forall. intros y Hy. apply (reproject_total minimize); auto.
    pose proof candidates_have_three_coordinates as Hc.
    rewrite Forall_forall in Hc. apply Hc.
    rewrite <- Hs in Hy. unfold survivors in Hy.
    apply (Permutation_in _ (sort_perm _)) in Hy.
    apply filter_In in Hy. apply Hy.
  - exists l. split; [exact Hl|]. now apply mapM_Forall2.
Qed.

End HealthyTriangulate.

(** With healthy collaborators [triangulate] has two outcomes only.  When
    the minimizer returns points of the shape of its guess and the triplet
    holds three constructed cameras, a call whose arguments pass the
    assertions either returns (when some candidate is below the threshold)
    or raises the "zero 3D points" [ValueError] with the best error found;
    the re-projection never fails. *)
Theorem triangulate_healthy_outcomes
    (minimize :
       (ndarray1 -> list (list R) -> result R) ->
       ndarray1 -> list (list R) -> Triangulate.method -> Triangulate.options ->
       option R -> Triangulate.OptimizeResult)
    (image_points : list (list (list R))) (cameras : Triangulate.Cameras)
    (x0 : option ndarray1) (matching_threshold : R) :
  TriangulateOrder.healthy minimize cameras ->
  Triangulate.check_arguments image_points x0 = true ->
  let st :=
    Triangulate.solve_combinations minimize image_points cameras
      (Triangulate.initial_guess x0) in
  ((exists c, In c (Triangulate.res_3d st)
              /\ Triangulate.error c < matching_threshold) ->
   exists l,
     Triangulate.triangulate minimize image_points cameras x0 matching_threshold
     = Ok l)
  /\ (forall e,
        Triangulate.triangulate minimize image_points cameras x0
          matching_threshold = Raise e ->
        e = ValueError (ZeroPointsBelowThreshold (Triangulate.best_err st)
                          matching_threshold)
        /\ forall c, In c (Triangulate.res_3d st) ->
             matching_threshold <= Triangulate.error c).
Proof.
  intros Hh Hc st.
  pose proof (healthy_outcome minimize image_points cameras x0 Hh Hc
                matching_threshold) as Hout.
  pose proof (survivors_in minimize image_points cameras x0 matching_threshold)
    as Hin.
  cbv zeta in Hout, Hin. fold st in Hout, Hin.
  destruct Hout as [[Hnil Hraise]|[Hne (l & Hl & _)]].
  - split.
    + intros (c & Hcin & Hlt). exfalso.
      assert (H : In c []) by (rewrite <- Hnil; apply Hin; auto).
      contradiction.
    + intros e He. rewrite Hraise in He. inversion He; subst.
      split; [reflexivity|]. intros c Hcin.
      destruct (Rlt_dec (Triangulate.error c) matching_threshold) as [Hlt|Hge];
        [|lra].
      exfalso. assert (H : In c []) by (rewrite <- Hnil; apply Hin; auto).
      contradiction.
  - split; [eauto|]. intros e He. rewrite Hl in He. discriminate.
Qed.

Lemma example_collaborators_healthy :
  TriangulateOrder.healthy Triangulate.example_minimize Triangulate.example_cameras.
Proof.
  split; [reflexivity|]. split; [reflexivity|].
  assert (Hc : TriangulateOrder.constructed Triangulate.example_camera).
  { exists [[1; 0; 0; 0]; [0; 1; 0; 0]; [0; 0; 1; 0]; [0; 0; 0; 1]],
      [[2; 0; 3]; [0; 2; 4]; [0; 0; 1]], None, None. reflexivity. }
  repeat constructor; exact Hc.
Defined.

Lemma triangulate_healthy_outcomes_witness :
  exists l,
    Triangulate.triangulate Triangulate.example_minimize
      [ [[0; 0]; [5; 0]]; [[0; 0]]; [[0; 0]] ]
      Triangulate.example_cameras None 5 = Ok l.
Proof.
  apply (triangulate_healthy_outcomes Triangulate.example_minimize
           [ [[0; 0]; [5; 0]]; [[0; 0]]; [[0; 0]] ]
           Triangulate.example_cameras None 5
           example_collaborators_healthy eq_refl).
  exists (Triangulate.candidate Triangulate.example_minimize
            [ [[0; 0]; [5; 0]]; [[0; 0]]; [[0; 0]] ]
            Triangulate.example_cameras (Triangulate.initial_guess None)
            [0; 0; 0]%nat).
  split.
  - rewrite solve_combinations_eq, point_key_combinations_three.
    left. reflexivity.
  - cbn. lra.
Defined.

(** Raising the threshold only adds results.  With healthy collaborators,
    if [triangulate] returns a list for one threshold, it returns a list for
    every larger threshold too, and every object point of the first list,
    with the same re-projections, is in the second. *)
Theorem triangulate_threshold_monotone
    (minimize :
       (ndarray1 -> list (list R) -> result R) ->
       ndarray1 -> list (list R) -> Triangulate.method -> Triangulate.options ->
       option R -> Triangulate.OptimizeResult)
    (image_points : list (list (list R))) (cameras : Triangulate.Cameras)
    (x0 : option ndarray1) (thr thr' : R) (l : list Triangulate.ObjectPoint) :
  TriangulateOrder.healthy minimize cameras ->
  thr <= thr' ->
  Triangulate.triangulate minimize image_points cameras x0 thr = Ok l ->
  exists l',
    Triangulate.triangulate minimize image_points cameras x0 thr' = Ok l'
    /\ (forall r, In r l -> In r l')
    /\ (length l <= length l')%nat.
Proof.
  intros Hh Hle Hret.
  pose proof (returned_full _ _ _ _ _ _ Hret) as (Hc & Hne & Hall).
  pose proof (survivors_in minimize image_points cameras x0 thr) as Hin.
  pose proof (survivors_in minimize image_points cameras x0 thr') as Hin'.
  pose proof (healthy_outcome minimize image_points cameras x0 Hh Hc thr') as Hout.
  cbv zeta in Hne, Hall, Hin, Hin', Hout.
  set (st := Triangulate.solve_combinations minimize image_points cameras
               (Triangulate.initial_guess x0)) in *.
  set (s := Triangulate.sort (filter (Triangulate.below thr)
                                (Triangulate.res_3d st))) in *.
  set (s' := Triangulate.sort (filter (Triangulate.below thr')
                                 (Triangulate.res_3d st))) in *.
  assert (Hsub : forall r, In r s -> In r s').
  { intros r Hr. apply Hin in Hr. apply Hin'. split; [tauto|lra]. }
  destruct Hout as [[Hnil _]|[_ (l' & Hl' & Hall')]].
  - exfalso. destruct s as [|r rs]; [congruence|].
    assert (H : In r s') by (apply Hsub; now left).
    rewrite Hnil in H. contradiction.
  - exists l'. split; [exact Hl'|]. split.
    + intros r Hr.
      destruct (Forall2_in_r _ _ _ _ Hall Hr) as (r0 & Hr0 & Hrep).
      destruct (Forall2_in_l _ _ _ _ Hall' (Hsub r0 Hr0)) as (r'' & Hr'' & Hrep').
      rewrite Hrep in Hrep'. inversion Hrep'; subst. exact Hr''.
    + rewrite <- (Forall2_length Hall), <- (Forall2_length Hall').
      unfold s, s'. rewrite !(Permutation_length (sort_perm _)).
      clear -Hle. induction (Triangulate.res_3d st) as [|c cs IH]; [simpl; lia|].
      cbn [filter].
      destruct (Triangulate.below thr c) eqn:Hb;
        destruct (Triangulate.below thr' c) eqn:Hb'; cbn [length]; try lia.
      exfalso. apply below_true_iff in Hb.
      assert (Hb'' : Triangulate.below thr' c = true)
        by (apply below_true_iff; lra).
      congruence.
Qed.

Lemma triangulate_threshold_monotone_witness :
  exists l l',
    Triangulate.triangulate Triangulate.example_minimize
      [ [[3; 0]; [0; 0]; [5; 0]]; [[0; 0]]; [[0; 0]] ]
      Triangulate.example_cameras None 5 = Ok l
    /\ Triangulate.triangulate Triangulate.example_minimize
         [ [[3; 0]; [0; 0]; [5; 0]]; [[0; 0]]; [[0; 0]] ]
         Triangulate.example_cameras None 1000 = Ok l'
    /\ (forall r, In r l -> In r l').
Proof.
  assert (Hrun : { l | Triangulate.triangulate Triangulate.example_minimize
                         [ [[3; 0]; [0; 0]; [5; 0]]; [[0; 0]]; [[0; 0]] ]
                         Triangulate.example_cameras None 5 = Ok l }).
  { eexists. run_triangulate. reflexivity. }
  destruct Hrun as [l Hrun].
  destruct (triangulate_threshold_monotone _ _ _ _ 5 1000 l
              example_collaborators_healthy ltac:(lra) Hrun)
    as (l' & Hl' & Hincl & _).
  exists l, l'. auto.
Defined.

(** ** plot_triangulations: the best results over all cameras *)

Lemma in_firstn {A : Type} (n : nat) (l : list A) (a : A) :
  In a (firstn n l) -> In a l.
Proof.
  intros H. rewrite <- (firstn_skipn n l). apply in_or_app. now left.
Qed.

Lemma in_skipn {A : Type} (n : nat) (l : list A) (a : A) :
  In a (skipn n l) -> In a l.
Proof.
  intros H. rewrite <- (firstn_skipn n l). apply in_or_app. now right.
Qed.

Lemma StronglySorted_firstn {A : Type} (Rel : A -> A -> Prop) (l : list A) (n : nat) :
  StronglySorted Rel l -> StronglySorted Rel (firstn n l).
Proof.
  intros H. revert n. induction H as [|a l Hl IH Ha]; intros n.
  - rewrite firstn_nil. constructor.
  - destruct n as [|n]; simpl; [constructor|].
    constructor; [apply IH|].
    rewrite Forall_forall in *. intros x Hx. apply Ha.
    eapply in_firstn; eauto.
Qed.

Lemma StronglySorted_firstn_skipn {A : Type} (Rel : A -> A -> Prop)
    (l : list A) (n : nat) a b :
  StronglySorted Rel l -> In a (firstn n l) -> In b (skipn n l) -> Rel a b.
Proof.
  intros H. revert n. induction H as [|h l Hl IH Hh]; intros n Ha Hb.
  - rewrite firstn_nil in Ha. contradiction.
  - destruct n as [|n]; simpl in Ha, Hb; [contradiction|].
    destruct Ha as [<-|Ha].
    + rewrite Forall_forall in Hh. apply Hh. eapply in_skipn; eauto.
    + eapply IH; eauto.
Qed.

Lemma returned_errors_below minimize image_points cameras x0 thr l r :
  Triangulate.triangulate minimize image_points cameras x0 thr = Ok l ->
  In r l -> Triangulate.error r < thr.
Proof.
  intros Hret Hr.
  pose proof (returned_full _ _ _ _ _ _ Hret) as (_ & _ & Hall).
  destruct (Forall2_in_r _ _ _ _ Hall Hr) as (r0 & Hr0 & Hrep).
  apply survivors_in in Hr0. apply reproject_forget in Hrep.
  destruct Hrep as [_ ->]. tauto.
Qed.

Section PlotTriangulationsFacts.

Variable minimize :
  (ndarray1 -> list (list R) -> result R) ->
  ndarray1 -> list (list R) -> Triangulate.method -> Triangulate.options ->
  option R -> Triangulate.OptimizeResult.

Variable centres : list (list (list R)).

Let attempt (cameras : Triangulate.Cameras) :=
  Triangulate.triangulate minimize centres cameras None 1000.

(** What the loop over the cameras has collected and logged. *)
Lemma fold_try_cameras (exp_cameras : list Triangulate.Cameras)
    (acc : list Triangulate.ObjectPoint * list PlotTriangulations.log_record) :
  let out := fold_left (PlotTriangulations.try_cameras minimize centres)
               exp_cameras acc in
  (forall r, In r (fst out)
             <-> In r (fst acc)
                 \/ exists cameras l,
                      In cameras exp_cameras /\ attempt cameras = Ok l /\ In r l)
  /\ length (snd out)
     = (length (snd acc)
        + length (filter (PlotTriangulations.fails minimize centres) exp_cameras))%nat.
Proof.
  revert acc. induction exp_cameras as [|cameras cs IH]; intros acc; cbv zeta.
  - simpl. split; [|lia]. intros r. split; [auto|].
    intros [H|(c & l & [] & _)]. exact H.
  - cbn [fold_left]. specialize (IH (PlotTriangulations.try_cameras minimize
                                        centres acc cameras)).
    cbv zeta in IH. destruct IH as [IHin IHlog]. split.
    + intros r. rewrite IHin.
      unfold PlotTriangulations.try_cameras. fold (attempt cameras).
      destruct (attempt cameras) as [l|e] eqn:Ha; cbn [fst].
      * rewrite in_app_iff. split.
        -- intros [[H|H]|(c & l' & Hc & Hl & Hr)]; auto.
           ++ right. exists cameras, l. simpl. auto.
           ++ right. exists c, l'. simpl. auto.
        -- intros [H|(c & l' & [<-|Hc] & Hl & Hr)]; auto.
           ++ left. right. rewrite Ha in Hl. inversion Hl; subst. exact Hr.
           ++ right. exists c, l'. auto.
      * split.
        -- intros [H|(c & l' & Hc & Hl & Hr)]; auto.
           right. exists c, l'. simpl. auto.
        -- intros [H|(c & l' & [<-|Hc] & Hl & Hr)]; auto.
           ++ rewrite Ha in Hl. discriminate.
           ++ right. exists c, l'. auto.
    + rewrite IHlog. cbn [filter].
      assert (Hf : PlotTriangulations.fails minimize centres cameras
                   = match attempt cameras with Ok _ => false | Raise _ => true end)
        by reflexivity.
      rewrite Hf. unfold PlotTriangulations.try_cameras. fold (attempt cameras).
      destruct (attempt cameras) as [l|e]; cbn [snd length].
      * lia.
      * rewrite length_app. cbn [length]. lia.
Qed.

End PlotTriangulationsFacts.

(** The results [plot_triangulations] shows.  The list is never longer than
    [MAX_RESULTS], it is sorted by error, each of its object points was
    returned by [triangulate] for the given centres and one of the cameras
    of the experiment (so its error is below the default threshold 1000),
    and the object points it leaves out are no better than the ones it
    keeps.  A failing triangulation is logged, one warning per failure, and
    never ends the loop.  Without exactly three views nothing is
    triangulated. *)
Theorem triangulate_all_keeps_the_best
    (minimize :
       (ndarray1 -> list (list R) -> result R) ->
       ndarray1 -> list (list R) -> Triangulate.method -> Triangulate.options ->
       option R -> Triangulate.OptimizeResult)
    (centres : list (list (list R)))
    (exp_cameras : list Triangulate.Cameras) :
  let attempt cameras :=
    Triangulate.triangulate minimize centres cameras None 1000 in
  let cameras_res :=
    fst (PlotTriangulations.triangulate_all minimize centres exp_cameras) in
  let log :=
    snd (PlotTriangulations.triangulate_all minimize centres exp_cameras) in
  (length cameras_res <= PlotTriangulations.MAX_RESULTS)%nat
  /\ Sorted Rle (map Triangulate.error cameras_res)
  /\ (forall r, In r cameras_res ->
        Triangulate.error r < 1000
        /\ exists cameras l,
             In cameras exp_cameras /\ attempt cameras = Ok l /\ In r l)
  /\ (forall cameras l r',
        In cameras exp_cameras -> attempt cameras = Ok l -> In r' l ->
        In r' cameras_res
        \/ (length cameras_res = PlotTriangulations.MAX_RESULTS
            /\ forall r, In r cameras_res ->
                 Triangulate.error r <= Triangulate.error r'))
  /\ (length centres = 3%nat ->
      length log
      = length (filter (PlotTriangulations.fails minimize centres) exp_cameras))
  /\ (length centres <> 3%nat -> cameras_res = [] /\ log = []).
Proof.
  intros attempt cameras_res log.
  unfold PlotTriangulations.triangulate_all in cameras_res, log.
  pose proof (fold_try_cameras minimize centres exp_cameras ([], [])) as Hfold.
  cbv zeta in Hfold. destruct Hfold as [Hin Hlog].
  destruct (Nat.eqb_spec (length centres) 3) as [H3|H3].
  - set (acc := fold_left (PlotTriangulations.try_cameras minimize centres)
                  exp_cameras ([], [])) in *.
    cbn [fst snd] in cameras_res, log.
    set (sorted := Triangulate.sort (fst acc)) in *.
    assert (Hsorted : StronglySorted Triangulate.error_le sorted)
      by apply sort_sorted.
    assert (Hperm : Permutation sorted (fst acc)) by apply sort_perm.
    assert (Hfrom : forall r, In r sorted <->
              exists cameras l,
                In cameras exp_cameras /\ attempt cameras = Ok l /\ In r l).
    { intros r. split.
      - intros Hr. apply (Permutation_in _ Hperm) in Hr. apply Hin in Hr.
        destruct Hr as [[]|Hr]. exact Hr.
      - intros Hr. apply (Permutation_in _ (Permutation_sym Hperm)).
        apply Hin. now right. }
    split; [|split; [|split; [|split; [|split]]]].
    + subst cameras_res. apply firstn_le_length.
    + subst cameras_res. apply sorted_errors. now apply StronglySorted_firstn.
    + intros r Hr. subst cameras_res. apply in_firstn in Hr.
      apply Hfrom in Hr. destruct Hr as (cameras & l & Hc & Hl & Hr).
      split; [|eauto]. exact (returned_errors_below _ _ _ _ _ _ _ Hl Hr).
    + intros cameras l r' Hc Hl Hr'.
      assert (Hs : In r' sorted) by (apply Hfrom; eauto).
      rewrite <- (firstn_skipn PlotTriangulations.MAX_RESULTS sorted) in Hs.
      apply in_app_or in Hs. destruct Hs as [Hs|Hs]; [left; exact Hs|right].
      split.
      * subst cameras_res. apply firstn_length_le.
        destruct (Nat.le_gt_cases PlotTriangulations.MAX_RESULTS (length sorted))
          as [Hle|Hgt]; [exact Hle|].
        rewrite skipn_all2 in Hs by lia. contradiction.
      * intros r Hr.
        exact (StronglySorted_firstn_skipn _ _ _ _ _ Hsorted Hr Hs).
    + intros _. subst log. rewrite Hlog. reflexivity.
    + intros Hne. contradiction.
  - subst cameras_res log. cbn [fst snd].
    split; [simpl; lia|]. split; [constructor|].
    split; [intros r []|]. split.
    + intros cameras l r' Hc Hl Hr'. exfalso.
      pose proof (returned_full _ _ _ _ _ _ Hl) as (Hcheck & _).
      apply check_arguments_true_iff in Hcheck. tauto.
    + split; [intros; contradiction|auto].
Qed.

(** ** simulate_particle_trajectory *)

Lemma index_ok {A : Type} (t : list A) (i : nat) (d : A) :
  (i < length t)%nat -> RTExplorer.index t i = Ok (nth i t d).
Proof.
  intros H. unfold RTExplorer.index.
  destruct (nth_error t i) as [a|] eqn:Hn.
  - now rewrite (nth_error_nth _ _ d Hn).
  - apply nth_error_None in Hn. lia.
Qed.

Lemma index_out_of_range {A : Type} (t : list A) (i : nat) :
  (length t <= i)%nat -> RTExplorer.index t i = Raise IndexError.
Proof.
  intros H. unfold RTExplorer.index.
  now rewrite (proj2 (nth_error_None t i) H).
Qed.

Lemma length_assign_rows e a b v :
  length (RTExplorer.assign_rows e a b v) = length e.
Proof.
  unfold RTExplorer.assign_rows.
  rewrite length_map, length_combine, length_seq. lia.
Qed.

Lemma nth_map_combine_seq {A B : Type} (f : nat * A -> B) (e : list A)
    (s r : nat) (d : A) (d' : B) :
  (r < length e)%nat ->
  nth r (map f (combine (seq s (length e)) e)) d' = f ((s + r)%nat, nth r e d).
Proof.
  revert s r. induction e as [|a e IH]; intros s r Hr; simpl in Hr; [lia|].
  destruct r as [|r]; cbn [length seq combine map nth].
  - now rewrite Nat.add_0_r.
  - rewrite IH by lia. f_equal. f_equal. lia.
Qed.

(** Writing a slice whose bounds lie inside the tensor. *)
Lemma nth_assign_rows e (a b : Z) v (r : nat) :
  (0 <= a <= b)%Z -> (b <= Z.of_nat (length e))%Z -> (r < length e)%nat ->
  nth r (RTExplorer.assign_rows e a (Some b) v) (0, 0, 0)
  = if ((a <=? Z.of_nat r) && (Z.of_nat r <? b))%Z then v
    else nth r e (0, 0, 0).
Proof.
  intros Ha Hb Hr. unfold RTExplorer.assign_rows.
  rewrite (nth_map_combine_seq _ e 0 r (0, 0, 0)) by exact Hr.
  cbn [fst snd Nat.add]. unfold RTExplorer.slice_bound.
  destruct (Z.ltb_spec a 0); [lia|]. destruct (Z.ltb_spec b 0); [lia|].
  rewrite !Z.min_l by lia. reflexivity.
Qed.

Lemma nth_assign_rows_to_end e (a : Z) v (r : nat) :
  (0 <= a <= Z.of_nat (length e))%Z -> (r < length e)%nat ->
  nth r (RTExplorer.assign_rows e a None v) (0, 0, 0)
  = if (a <=? Z.of_nat r)%Z then v else nth r e (0, 0, 0).
Proof.
  intros Ha Hr. unfold RTExplorer.assign_rows.
  rewrite (nth_map_combine_seq _ e 0 r (0, 0, 0)) by exact Hr.
  cbn [fst snd Nat.add]. unfold RTExplorer.slice_bound.
  destruct (Z.ltb_spec a 0); [lia|]. rewrite Z.min_l by lia.
  destruct (Z.ltb_spec (Z.of_nat r) (Z.of_nat (length e))); [|lia].
  now rewrite andb_true_r.
Qed.

Lemma skipn_cons_nth {A : Type} (l : list A) (i : nat) (a : A) (rest : list A) (d : A) :
  skipn i l = a :: rest ->
  (i < length l)%nat /\ a = nth i l d /\ rest = skipn (S i) l.
Proof.
  revert i. induction l as [|x l IH]; intros i H.
  - rewrite skipn_nil in H. discriminate.
  - destruct i as [|i]; simpl in H.
    + inversion H; subst. simpl. repeat split. lia.
    + destruct (IH i H) as (Hi & Ha & Hr). simpl. repeat split; auto. lia.
Qed.

Section SimulateFacts.

Variable wrap : Z -> Z.
Variable limit : Z.
Hypothesis wrap_small : forall z, (0 <= z <= limit)%Z -> wrap z = z.

Variable n_steps : Z.
Variable durations : list Z.
Variable speeds : list R.
Variable e0s : list RTExplorer.vec3.
Variable pauses : list Z.

Hypothesis durations_nonneg : Forall (fun d => (0 <= d)%Z) durations.
Hypothesis pauses_nonneg : Forall (fun p => (0 <= p)%Z) pauses.
Hypothesis enough_speeds : (length durations <= length speeds)%nat.
Hypothesis enough_pauses : (length durations <= length pauses)%nat.
Hypothesis enough_headings : (length durations <= length e0s)%nat.

Let L := length durations.
Let start := RTExplorer.start durations pauses.
Let total := start L.

Hypothesis total_small : (total <= limit)%Z.
Hypothesis steps_nonneg : (0 <= n_steps)%Z.

Let row_ok := RTExplorer.row_ok durations speeds e0s pauses.

Lemma nth_nonneg (l : list Z) (i : nat) :
  Forall (fun d => (0 <= d)%Z) l -> (0 <= nth i l 0)%Z.
Proof.
  intros H. destruct (Nat.lt_ge_cases i (length l)) as [Hi|Hi].
  - rewrite Forall_forall in H. apply H. now apply nth_In.
  - rewrite nth_overflow by exact Hi. lia.
Qed.

Lemma start_step (j : nat) :
  (start j <= start j + nth j durations 0 <= start (S j))%Z.
Proof.
  unfold start. cbn [RTExplorer.start].
  pose proof (nth_nonneg durations j durations_nonneg).
  pose proof (nth_nonneg pauses j pauses_nonneg). lia.
Qed.

Lemma start_mono (i j : nat) : (i <= j)%nat -> (start i <= start j)%Z.
Proof.
  induction 1 as [|j Hij IH]; [lia|].
  pose proof (start_step j). lia.
Qed.

Lemma start_nonneg (j : nat) : (0 <= start j)%Z.
Proof. apply (start_mono 0 j). lia. Qed.

(** The loop, started at run [i] with the rows before [start i] done and
    the rows from there on still zero. *)
Lemma loop_spec (rest : list Z) :
  forall (i : nat) (e0_exp : list RTExplorer.vec3),
    rest = skipn i durations ->
    (i <= L)%nat ->
    Z.of_nat (length e0_exp) = n_steps ->
    (forall r, (Z.of_nat r < Z.min (start i) n_steps)%Z ->
               row_ok (Z.of_nat r) (nth r e0_exp (0, 0, 0))) ->
    (forall r, (start i <= Z.of_nat r < n_steps)%Z ->
               nth r e0_exp (0, 0, 0) = (0, 0, 0)) ->
    ((n_steps <= total)%Z ->
     exists out,
       RTExplorer.loop wrap n_steps speeds e0s pauses rest i (start i)
         (RTExplorer.heading e0s i) e0_exp = Ok out
       /\ Z.of_nat (length out) = n_steps
       /\ forall r, (Z.of_nat r < n_steps)%Z ->
                    row_ok (Z.of_nat r) (nth r out (0, 0, 0)))
    /\ ((total < n_steps)%Z ->
        RTExplorer.loop wrap n_steps speeds e0s pauses rest i (start i)
          (RTExplorer.heading e0s i) e0_exp = Raise IndexError).
Proof.
  induction rest as [|d rest IH]; intros i e0_exp Hrest Hi Hlen Hdone Hzero.
  - (* no run left: i = L *)
    assert (HiL : i = L).
    { apply (f_equal (@length Z)) in Hrest. rewrite length_skipn in Hrest.
      simpl in Hrest. subst L. lia. }
    subst i. fold total. cbn [RTExplorer.loop]. split.
    + intros Hle. destruct (Z.ltb_spec total n_steps); [lia|].
      exists e0_exp. split; [reflexivity|]. split; [exact Hlen|].
      intros r Hr. apply Hdone. fold total. lia.
    + intros Hlt. destruct (Z.ltb_spec total n_steps); [reflexivity|lia].
  - symmetry in Hrest.
    destruct (skipn_cons_nth durations i d rest 0%Z Hrest) as (HiL & Hd & Hrest').
    fold L in HiL.
    pose proof (start_step i) as Hstep.
    pose proof (start_mono (S i) L ltac:(lia)) as Hmono. fold total in Hmono.
    pose proof (start_nonneg i) as Hnn.
    rewrite <- Hd in Hstep.
    assert (Hw1 : wrap (start i + d) = (start i + d)%Z)
      by (apply wrap_small; lia).
    assert (Hp : (0 <= nth i pauses 0)%Z) by (apply nth_nonneg; exact pauses_nonneg).
    assert (Hnext : (start (S i) = start i + (d + nth i pauses 0))%Z)
      by (unfold start; cbn [RTExplorer.start]; rewrite <- Hd; reflexivity).
    assert (Hw2 : wrap (d + nth i pauses 0)%Z = (d + nth i pauses 0)%Z)
      by (apply wrap_small; lia).
    assert (Hw3 : wrap (start i + (d + nth i pauses 0))%Z
                  = (start i + (d + nth i pauses 0))%Z)
      by (apply wrap_small; lia).
    cbn [RTExplorer.loop].
    destruct (Z.ltb_spec (start i) n_steps) as [Hlt|Hge].
    + rewrite (index_ok speeds i 0%R) by lia. cbn [bind]. rewrite Hw1.
      destruct (Z.gtb_spec (start i + d) n_steps) as [Hover|Hfits].
      * (* the last run is cut off at n_steps *)
        split; [|intros; lia]. intros _.
        eexists. split; [reflexivity|]. split; [now rewrite length_assign_rows|].
        intros r Hr. rewrite nth_assign_rows_to_end by lia.
        destruct (Z.leb_spec (start i) (Z.of_nat r)) as [Hin|Hbefore].
        -- left. exists i. split; [exact HiL|]. fold start. rewrite <- Hd.
           split; [lia|reflexivity].
        -- apply Hdone. lia.
      * (* a whole run, then a tumble and a pause *)
        rewrite (index_ok e0s i (0, 0, 0)) by lia.
        rewrite (index_ok pauses i 0%Z) by lia. cbn [bind].
        rewrite Hw2, Hw3, <- Hnext.
        change (nth i e0s (0, 0, 0)) with (RTExplorer.heading e0s (S i)).
        apply IH.
        -- exact Hrest'.
        -- lia.
        -- now rewrite length_assign_rows.
        -- intros r Hr.
           rewrite nth_assign_rows by lia.
           destruct (Z.leb_spec (start i) (Z.of_nat r)) as [Hin|Hbefore];
             cbn [andb].
           ++ destruct (Z.ltb_spec (Z.of_nat r) (start i + d)) as [Hrun|Hpause].
              ** left. exists i. split; [exact HiL|]. fold start.
                 rewrite <- Hd. split; [lia|reflexivity].
              ** right. exists i. split; [exact HiL|]. fold start.
                 rewrite <- Hd. split; [lia|]. apply Hzero. lia.
           ++ apply Hdone. lia.
        -- intros r Hr. rewrite nth_assign_rows by lia.
           destruct (Z.leb_spec (start i) (Z.of_nat r)); cbn [andb];
             [destruct (Z.ltb_spec (Z.of_nat r) (start i + d)); [lia|]|];
             apply Hzero; lia.
    + (* the steps are used up *)
      split; [|intros; lia]. intros _.
      exists e0_exp. split; [reflexivity|]. split; [exact Hlen|].
      intros r Hr. apply Hdone. lia.
Qed.

End SimulateFacts.

Lemma wrap32_small (z : Z) :
  (0 <= z <= 2 ^ 31 - 1)%Z -> RTExplorer.wrap32 z = z.
Proof.
  intros H. unfold RTExplorer.wrap32.
  rewrite Z.mod_small by lia. lia.
Qed.

Lemma nth_repeat_zero (n r : nat) :
  nth r (repeat ((0, 0, 0) : RTExplorer.vec3) n) (0, 0, 0) = (0, 0, 0).
Proof.
  revert r. induction n as [|n IH]; intros [|r]; simpl; auto.
Qed.

(** simulate_particle_trajectory lays the runs and the pauses out in order.
    When no sum of durations overflows the integer dtype and the runs and
    pauses together cover [n_steps], the function returns [n_steps] rows;
    a row inside run [j] holds [speeds[j]] times the heading of that run,
    which is [e0s[0]] for the first run and [e0s[j - 1]] afterwards, and a
    row inside a pause is zero. *)
Theorem simulate_lays_out_runs_and_pauses
    (wrap : Z -> Z) (limit n_steps : Z) (durations : list Z)
    (speeds : list R) (e0s : list RTExplorer.vec3) (pauses : list Z) :
  (forall z, (0 <= z <= limit)%Z -> wrap z = z) ->
  Forall (fun d => (0 <= d)%Z) durations ->
  Forall (fun p => (0 <= p)%Z) pauses ->
  (length durations <= length speeds)%nat ->
  (length durations <= length pauses)%nat ->
  (length durations <= length e0s)%nat ->
  (0 < length e0s)%nat ->
  (RTExplorer.start durations pauses (length durations) <= limit)%Z ->
  (0 <= n_steps <= RTExplorer.start durations pauses (length durations))%Z ->
  exists out,
    RTExplorer.simulate_particle_trajectory wrap n_steps durations speeds
      e0s pauses = Ok out
    /\ length out = Z.to_nat n_steps
    /\ forall r, (r < Z.to_nat n_steps)%nat ->
         RTExplorer.row_ok durations speeds e0s pauses (Z.of_nat r)
           (nth r out (0, 0, 0)).
Proof.
  intros Hwrap Hd Hp Hs Hpl He Hne Htot [Hn0 Hn].
  unfold RTExplorer.simulate_particle_trajectory.
  rewrite (index_ok e0s 0 (0, 0, 0)) by exact Hne. cbn [bind].
  destruct (Z.ltb_spec n_steps 0); [lia|].
  destruct (loop_spec wrap limit Hwrap n_steps durations speeds e0s pauses
              Hd Hp Hs Hpl He Htot durations 0
              (repeat (0, 0, 0) (Z.to_nat n_steps)))
    as [Hok _].
  - reflexivity.
  - lia.
  - rewrite repeat_length. lia.
  - intros r Hr. cbn [RTExplorer.start] in Hr. lia.
  - intros r _. apply nth_repeat_zero.
  - destruct (Hok Hn) as (out & Hrun & Hlen & Hrows).
    exists out. split; [exact Hrun|]. split; [lia|].
    intros r Hr. apply Hrows. lia.
Qed.

Lemma simulate_lays_out_runs_and_pauses_witness :
  exists out,
    RTExplorer.simulate_particle_trajectory RTExplorer.wrap32 5
      [2; 3]%Z [1; 2] [(1, 0, 0); (0, 1, 0)] [1; 1]%Z = Ok out
    /\ length out = 5%nat
    /\ forall r, (r < 5)%nat ->
         RTExplorer.row_ok [2; 3]%Z [1; 2] [(1, 0, 0); (0, 1, 0)] [1; 1]%Z
           (Z.of_nat r) (nth r out (0, 0, 0)).
Proof.
  apply (simulate_lays_out_runs_and_pauses RTExplorer.wrap32 (2 ^ 31 - 1) 5
           [2; 3]%Z [1; 2] [(1, 0, 0); (0, 1, 0)] [1; 1]%Z).
  - exact wrap32_small.
  - repeat constructor; lia.
  - repeat constructor; lia.
  - simpl; lia.
  - simpl; lia.
  - simpl; lia.
  - simpl; lia.
  - vm_compute; discriminate.
  - split; vm_compute; discriminate.
Defined.

(** simulate_particle_trajectory has no guard on the index [i]: when the
    runs and pauses handed in add up to less than [n_steps], the loop goes
    past the end of [durations] and the indexing raises. *)
Theorem simulate_needs_enough_durations
    (wrap : Z -> Z) (limit n_steps : Z) (durations : list Z)
    (speeds : list R) (e0s : list RTExplorer.vec3) (pauses : list Z) :
  (forall z, (0 <= z <= limit)%Z -> wrap z = z) ->
  Forall (fun d => (0 <= d)%Z) durations ->
  Forall (fun p => (0 <= p)%Z) pauses ->
  (length durations <= length speeds)%nat ->
  (length durations <= length pauses)%nat ->
  (length durations <= length e0s)%nat ->
  (RTExplorer.start durations pauses (length durations) <= limit)%Z ->
  (RTExplorer.start durations pauses (length durations) < n_steps)%Z ->
  RTExplorer.simulate_particle_trajectory wrap n_steps durations speeds
    e0s pauses = Raise IndexError.
Proof.
  intros Hwrap Hd Hp Hs Hpl He Htot Hn.
  assert (Hn0 : (0 <= n_steps)%Z).
  { pose proof (start_nonneg durations speeds e0s pauses Hd Hp Hs Hpl He
                  (length durations)). lia. }
  unfold RTExplorer.simulate_particle_trajectory.
  destruct e0s as [|e e0s'] eqn:He0s; [reflexivity|]. rewrite <- He0s in *.
  rewrite (index_ok e0s 0 (0, 0, 0)) by (rewrite He0s; simpl; lia).
  cbn [bind]. destruct (Z.ltb_spec n_steps 0); [lia|].
  destruct (loop_spec wrap limit Hwrap n_steps durations speeds e0s pauses
              Hd Hp Hs Hpl He Htot durations 0
              (repeat (0, 0, 0) (Z.to_nat n_steps)))
    as [_ Hraise].
  - reflexivity.
  - lia.
  - rewrite repeat_length. lia.
  - intros r Hr. cbn [RTExplorer.start] in Hr. lia.
  - intros r _. apply nth_repeat_zero.
  - exact (Hraise Hn).
Qed.

Lemma simulate_needs_enough_durations_witness :
  RTExplorer.simulate_particle_trajectory RTExplorer.wrap32 8
    [2; 3]%Z [1; 2] [(1, 0, 0); (0, 1, 0)] [1; 1]%Z = Raise IndexError.
Proof.
  apply (simulate_needs_enough_durations RTExplorer.wrap32 (2 ^ 31 - 1)).
  - exact wrap32_small.
  - repeat constructor; lia.
  - repeat constructor; lia.
  - simpl; lia.
  - simpl; lia.
  - simpl; lia.
  - vm_compute; discriminate.
  - vm_compute; reflexivity.
Defined.

(** ** normalize_peakplane *)

Lemma sqrt_scaled (x y : R) :
  x <> 0 -> sqrt (x ^ 2 + y ^ 2) = Rabs x * sqrt (1 + (y / x)²).
Proof.
  intros Hx.
  replace (x ^ 2 + y ^ 2) with (x² * (1 + (y / x)²))
    by (unfold Rsqr; field; exact Hx).
  rewrite sqrt_mult.
  - now rewrite sqrt_Rsqr_abs.
  - apply Rle_0_sqr.
  - pose proof (Rle_0_sqr (y / x)). lra.
Qed.

Lemma sqrt_one_plus_sqr_pos (t : R) : 0 < sqrt (1 + t²).
Proof. apply sqrt_lt_R0. pose proof (Rle_0_sqr t). lra. Qed.

(** The angle returned by [arctan2] is the polar angle of the point. *)
Lemma arctan2_polar (y x : R) :
  sqrt (x ^ 2 + y ^ 2) * cos (CPCA.arctan2 y x) = x
  /\ sqrt (x ^ 2 + y ^ 2) * sin (CPCA.arctan2 y x) = y.
Proof.
  unfold CPCA.arctan2.
  destruct (Rlt_dec 0 x) as [Hpos|Hnpos].
  - rewrite sqrt_scaled by lra. rewrite Rabs_right by lra.
    rewrite cos_atan, sin_atan.
    pose proof (sqrt_one_plus_sqr_pos (y / x)) as Hs.
    split; field; lra.
  - destruct (Rlt_dec x 0) as [Hneg|Hnneg].
    + rewrite sqrt_scaled by lra. rewrite Rabs_left by lra.
      pose proof (sqrt_one_plus_sqr_pos (y / x)) as Hs.
      destruct (Rle_dec 0 y).
      * rewrite neg_cos, neg_sin, cos_atan, sin_atan. split; field; lra.
      * rewrite cos_minus, sin_minus, cos_PI, sin_PI, cos_atan, sin_atan.
        split; field; lra.
    + assert (Hx : x = 0) by lra. subst x.
      replace (0 ^ 2 + y ^ 2) with (y²) by (unfold Rsqr; ring).
      rewrite sqrt_Rsqr_abs.
      destruct (Rlt_dec 0 y) as [Hy|Hy].
      * rewrite Rabs_right by lra. rewrite cos_PI2, sin_PI2. lra.
      * destruct (Rlt_dec y 0) as [Hy'|Hy'].
        -- rewrite Rabs_left by lra. rewrite cos_neg, sin_neg, cos_PI2, sin_PI2.
           lra.
        -- assert (y = 0) by lra. subst y. rewrite Rabs_R0. lra.
Qed.

Lemma broadcast2_same_length (f : R -> R -> R) (a b : list R) :
  length a = length b ->
  CPCA.broadcast2 f a b
  = CPCA.returns (map (fun p => f (fst p) (snd p)) (combine a b)).
Proof.
  intros H. unfold CPCA.broadcast2. now rewrite H, Nat.eqb_refl.
Qed.

Lemma nth_zip (f : R -> R -> R) (a b : list R) (k : nat) (d : R) :
  length a = length b -> (k < length a)%nat ->
  nth k (map (fun p => f (fst p) (snd p)) (combine a b)) d
  = f (nth k a 0) (nth k b 0).
Proof.
  revert b k. induction a as [|x a IH]; intros [|y b] k Hl Hk;
    simpl in *; try lia.
  destruct k as [|k]; [reflexivity|]. apply IH; lia.
Qed.

Lemma item_nth (a : list R) (j : nat) :
  (j < length a)%nat -> CPCA.item a j = CPCA.returns (nth j a 0).
Proof.
  intros H. unfold CPCA.item.
  destruct (nth_error a j) as [x|] eqn:Hn.
  - now rewrite (nth_error_nth _ _ 0 Hn).
  - apply nth_error_None in Hn. lia.
Qed.

Lemma item_out_of_bounds (a : list R) (j : nat) :
  (length a <= j)%nat -> CPCA.item a j = CPCA.raises CPCA.IndexOutOfBounds.
Proof.
  intros H. unfold CPCA.item. now rewrite (proj2 (nth_error_None a j) H).
Qed.

Lemma argmax_from_spec (full : list R) (rest : list R) :
  forall i best,
    rest = skipn i full -> (i <= length full)%nat -> (best < i)%nat ->
    (forall k, (k < i)%nat -> nth k full 0 <= nth best full 0) ->
    let j := CPCA.argmax_from rest i best (nth best full 0) in
    (j < length full)%nat
    /\ forall k, (k < length full)%nat -> nth k full 0 <= nth j full 0.
Proof.
  induction rest as [|x rest IH]; intros i best Hrest Hi Hbest Hmax.
  - assert (i = length full).
    { apply (f_equal (@length R)) in Hrest. rewrite length_skipn in Hrest.
      simpl in Hrest. lia. }
    subst i. cbn [CPCA.argmax_from]. split; [lia|exact Hmax].
  - symmetry in Hrest.
    destruct (skipn_cons_nth full i x rest 0 Hrest) as (Hlt & Hx & Hrest').
    cbn [CPCA.argmax_from].
    destruct (Rlt_dec (nth best full 0) x) as [Hgt|Hle].
    + rewrite Hx. apply IH; [exact Hrest'|lia|lia|].
      intros k Hk. destruct (Nat.eq_dec k i) as [->|Hne]; [lra|].
      specialize (Hmax k ltac:(lia)). lra.
    + apply IH; [exact Hrest'|lia|lia|].
      intros k Hk. destruct (Nat.eq_dec k i) as [->|Hne]; [lra|].
      apply Hmax. lia.
Qed.

Lemma argmax_spec (l : list R) :
  l <> [] ->
  exists j, CPCA.argmax l = CPCA.returns j
    /\ (j < length l)%nat
    /\ forall k, (k < length l)%nat -> nth k l 0 <= nth j l 0.
Proof.
  destruct l as [|x l]; [congruence|]. intros _.
  exists (CPCA.argmax_from l 1 0 x). split; [reflexivity|].
  apply (argmax_from_spec (x :: l) l 1 0).
  - reflexivity.
  - simpl; lia.
  - lia.
  - intros k Hk. assert (k = 0)%nat by lia. subst k. simpl. lra.
Qed.

(** normalize_peakplane turns every entry by the same angle.  For arrays
    of one length the function returns two arrays of that length, and at
    every position the squared modulus of the pair is the one of the
    input. *)
Theorem normalize_peakplane_preserves_modulus
    (args : CPCA.arguments) (m10 m20 m1 m2 : list R) (theta : R) :
  CPCA.split_arguments args = (m10, m20) ->
  length m10 = length m20 ->
  CPCA.normalize_peakplane args = CPCA.returns (m1, m2, theta) ->
  length m1 = length m10 /\ length m2 = length m10
  /\ forall k, (k < length m10)%nat ->
       nth k m1 0 ^ 2 + nth k m2 0 ^ 2 = nth k m10 0 ^ 2 + nth k m20 0 ^ 2.
Proof.
  intros Hs Hl Hrun. unfold CPCA.normalize_peakplane in Hrun.
  rewrite Hs in Hrun. rewrite !broadcast2_same_length in Hrun by exact Hl.
  cbn [CPCA.and_then CPCA.returns] in Hrun.
  destruct (CPCA.argmax _) as [e|j]; [discriminate|].
  cbn [CPCA.and_then] in Hrun.
  destruct (CPCA.item m20 j) as [e|y]; [discriminate|].
  cbn [CPCA.and_then] in Hrun.
  destruct (CPCA.item m10 j) as [e|x]; [discriminate|].
  cbn [CPCA.and_then] in Hrun. cbv zeta in Hrun.
  rewrite !broadcast2_same_length in Hrun by exact Hl.
  cbn [CPCA.and_then CPCA.returns] in Hrun. injection Hrun as <- <- <-.
  split; [rewrite length_map, length_combine; lia|].
  split; [rewrite length_map, length_combine; lia|].
  intros k Hk.
  rewrite (nth_zip (fun a b => cos _ * a - sin _ * b)) by assumption.
  rewrite (nth_zip (fun a b => sin _ * a + cos _ * b)) by assumption.
  set (t := CPCA.arctan2 (- y) x).
  pose proof (sin2_cos2 t) as Hsc. unfold Rsqr in Hsc.
  set (a := nth k m10 0). set (b := nth k m20 0).
  replace ((cos t * a - sin t * b) ^ 2 + (sin t * a + cos t * b) ^ 2)
    with ((sin t * sin t + cos t * cos t) * (a ^ 2 + b ^ 2)) by ring.
  rewrite Hsc. ring.
Qed.

Lemma normalize_peakplane_preserves_modulus_witness :
  exists m1 m2 theta,
    CPCA.normalize_peakplane (CPCA.ComplexArray [(3, 4); (1, 2)])
    = CPCA.returns (m1, m2, theta)
    /\ length m1 = 2%nat /\ length m2 = 2%nat
    /\ forall k, (k < 2)%nat ->
         nth k m1 0 ^ 2 + nth k m2 0 ^ 2
         = nth k [3; 1] 0 ^ 2 + nth k [4; 2] 0 ^ 2.
Proof.
  assert (Hrun : { r | CPCA.normalize_peakplane
                         (CPCA.ComplexArray [(3, 4); (1, 2)])
                       = CPCA.returns r }).
  { unfold CPCA.normalize_peakplane, CPCA.split_arguments.
    cbn [map fst snd].
    rewrite broadcast2_same_length by reflexivity.
    cbn [CPCA.and_then CPCA.returns combine map fst snd CPCA.argmax
         CPCA.argmax_from].
    destruct (Rlt_dec (3 ^ 2 + 4 ^ 2) (1 ^ 2 + 2 ^ 2)) as [H|_]; [exfalso; lra|].
    cbn [CPCA.argmax_from CPCA.item nth_error CPCA.and_then CPCA.returns].
    cbv zeta. rewrite !broadcast2_same_length by reflexivity.
    cbn [CPCA.and_then CPCA.returns]. eexists. reflexivity. }
  destruct Hrun as [[[m1 m2] theta] Hrun].
  exists m1, m2, theta. split; [exact Hrun|].
  apply (normalize_peakplane_preserves_modulus
           (CPCA.ComplexArray [(3, 4); (1, 2)]) [3; 1] [4; 2] m1 m2 theta);
    [reflexivity|reflexivity|exact Hrun].
Defined.

Lemma rotate_onto_axis (c s r x y : R) :
  r * c = x -> r * s = - y -> r * r = x ^ 2 + y ^ 2 ->
  c * x - s * y = r /\ s * x + c * y = 0.
Proof.
  intros Hc Hs Hrr. destruct (Req_dec_T r 0) as [Hz|Hnz].
  - subst r. rewrite Rmult_0_l in Hc, Hs. assert (y = 0) by lra. subst x y.
    split; ring.
  - split.
    + apply (Rmult_eq_reg_l r); [|exact Hnz].
      replace (r * (c * x - s * y)) with ((r * c) * x - (r * s) * y) by ring.
      rewrite Hc, Hs, Hrr. ring.
    + apply (Rmult_eq_reg_l r); [|exact Hnz].
      replace (r * (s * x + c * y)) with ((r * s) * x + (r * c) * y) by ring.
      rewrite Hc, Hs. ring.
Qed.

Lemma rotate_peak (x y : R) :
  cos (CPCA.arctan2 (- y) x) * x - sin (CPCA.arctan2 (- y) x) * y
  = sqrt (x ^ 2 + y ^ 2)
  /\ sin (CPCA.arctan2 (- y) x) * x + cos (CPCA.arctan2 (- y) x) * y = 0.
Proof.
  destruct (arctan2_polar (- y) x) as [Hc Hs].
  replace (x ^ 2 + (- y) ^ 2) with (x ^ 2 + y ^ 2) in Hc, Hs by ring.
  apply rotate_onto_axis; [exact Hc|exact Hs|].
  apply sqrt_sqrt. pose proof (pow2_ge_0 x). pose proof (pow2_ge_0 y). lra.
Qed.

(** normalize_peakplane puts the peak on the positive real axis.  For
    non-empty arrays of one length the function returns; at a position
    [j] where the squared modulus is largest, the second array returned is
    zero and the first one holds the modulus of the input. *)
Theorem normalize_peakplane_peak_on_real_axis
    (args : CPCA.arguments) (m10 m20 : list R) :
  CPCA.split_arguments args = (m10, m20) ->
  length m10 = length m20 ->
  m10 <> [] ->
  exists m1 m2 theta j,
    CPCA.normalize_peakplane args = CPCA.returns (m1, m2, theta)
    /\ (j < length m10)%nat
    /\ (forall k, (k < length m10)%nat ->
          nth k m10 0 ^ 2 + nth k m20 0 ^ 2
          <= nth j m10 0 ^ 2 + nth j m20 0 ^ 2)
    /\ nth j m1 0 = sqrt (nth j m10 0 ^ 2 + nth j m20 0 ^ 2)
    /\ nth j m2 0 = 0.
Proof.
  intros Hs Hl Hne. unfold CPCA.normalize_peakplane. rewrite Hs.
  rewrite broadcast2_same_length by exact Hl.
  cbn [CPCA.and_then CPCA.returns].
  set (sq := map _ (combine m10 m20)).
  assert (Hlen : length sq = length m10)
    by (unfold sq; rewrite length_map, length_combine; lia).
  assert (Hsq : sq <> []).
  { intros E. rewrite E in Hlen. destruct m10; [congruence|discriminate]. }
  destruct (argmax_spec sq Hsq) as (j & Hj & Hjlt & Hmax).
  rewrite Hj. cbn [CPCA.and_then CPCA.returns].
  rewrite (item_nth m20 j) by lia. cbn [CPCA.and_then CPCA.returns].
  rewrite (item_nth m10 j) by lia. cbn [CPCA.and_then CPCA.returns].
  cbv zeta. rewrite !broadcast2_same_length by exact Hl.
  cbn [CPCA.and_then CPCA.returns].
  eexists _, _, _, j. split; [reflexivity|]. split; [lia|].
  destruct (rotate_peak (nth j m10 0) (nth j m20 0)) as [H1 H2].
  split; [|split].
  - intros k Hk. specialize (Hmax k ltac:(lia)). unfold sq in Hmax.
    rewrite !(nth_zip (fun a b => a ^ 2 + b ^ 2)) in Hmax by lia.
    exact Hmax.
  - rewrite (nth_zip (fun a b => cos _ * a - sin _ * b)) by lia. exact H1.
  - rewrite (nth_zip (fun a b => sin _ * a + cos _ * b)) by lia. exact H2.
Qed.

Lemma normalize_peakplane_peak_on_real_axis_witness :
  exists m1 m2 theta j,
    CPCA.normalize_peakplane (CPCA.Parts [1; -3] [2; 4])
    = CPCA.returns (m1, m2, theta)
    /\ (j < 2)%nat
    /\ (forall k, (k < 2)%nat ->
          nth k [1; -3] 0 ^ 2 + nth k [2; 4] 0 ^ 2
          <= nth j [1; -3] 0 ^ 2 + nth j [2; 4] 0 ^ 2)
    /\ nth j m1 0 = sqrt (nth j [1; -3] 0 ^ 2 + nth j [2; 4] 0 ^ 2)
    /\ nth j m2 0 = 0.
Proof.
  apply (normalize_peakplane_peak_on_real_axis
           (CPCA.Parts [1; -3] [2; 4]) [1; -3] [2; 4]).
  - reflexivity.
  - reflexivity.
  - discriminate.
Defined.

(** normalize_peakplane checks nothing itself; what numpy refuses is what
    fails.  Arrays of different lengths of which neither has one entry
    cannot be combined, and with no entry at all there is no peak. *)
Theorem normalize_peakplane_value_errors
    (args : CPCA.arguments) (m10 m20 : list R) :
  CPCA.split_arguments args = (m10, m20) ->
  (length m10 <> length m20 /\ length m10 <> 1%nat /\ length m20 <> 1%nat
   -> CPCA.normalize_peakplane args = CPCA.raises CPCA.BroadcastError)
  /\ (m10 = [] /\ (length m20 <= 1)%nat
      -> CPCA.normalize_peakplane args = CPCA.raises CPCA.EmptyArgmax).
Proof.
  intros Hs. unfold CPCA.normalize_peakplane. rewrite Hs. split.
  - intros (Hne & H1 & H2). unfold CPCA.broadcast2.
    destruct (Nat.eqb_spec (length m10) (length m20)); [contradiction|].
    destruct (Nat.eqb_spec (length m10) 1); [contradiction|].
    destruct (Nat.eqb_spec (length m20) 1); [contradiction|].
    reflexivity.
  - intros [-> Hm]. destruct m20 as [|y [|y' m20]]; simpl in Hm; try lia;
      reflexivity.
Qed.

Lemma normalize_peakplane_value_errors_witness :
  (CPCA.normalize_peakplane (CPCA.Parts [1; 2; 3] [4; 5])
   = CPCA.raises CPCA.BroadcastError)
  /\ (CPCA.normalize_peakplane (CPCA.ComplexArray [])
      = CPCA.raises CPCA.EmptyArgmax).
Proof.
  split.
  - apply (normalize_peakplane_value_errors
             (CPCA.Parts [1; 2; 3] [4; 5]) [1; 2; 3] [4; 5] eq_refl).
    simpl. repeat split; lia.
  - apply (normalize_peakplane_value_errors (CPCA.ComplexArray []) [] []
             eq_refl).
    simpl. split; [reflexivity|lia].
Defined.

(** normalize_peakplane looks the peak up in the arrays as they were
    handed in.  numpy accepts an [m10] of one entry beside a longer [m20]
    and broadcasts it, but when the peak is not at position 0 the lookup
    [m10[j]] is out of bounds. *)
Theorem normalize_peakplane_broadcast_index_error
    (x : R) (m20 : list R) (j : nat) :
  (1 < length m20)%nat ->
  CPCA.argmax (map (fun b => x ^ 2 + b ^ 2) m20) = CPCA.returns j ->
  (1 <= j)%nat ->
  CPCA.normalize_peakplane (CPCA.Parts [x] m20)
  = CPCA.raises CPCA.IndexOutOfBounds.
Proof.
  intros Hlen Hj Hj1.
  assert (Hjlt : (j < length m20)%nat).
  { destruct (argmax_spec (map (fun b => x ^ 2 + b ^ 2) m20)) as (j' & E & Hlt & _).
    - destruct m20; [simpl in Hlen; lia|discriminate].
    - rewrite Hj in E. injection E as ->. now rewrite length_map in Hlt. }
  unfold CPCA.normalize_peakplane.
  assert (Hs : CPCA.split_arguments (CPCA.Parts [x] m20) = ([x], m20))
    by (destruct m20; [simpl in Hlen; lia|reflexivity]).
  rewrite Hs. unfold CPCA.broadcast2 at 1. cbn [length hd].
  destruct (Nat.eqb_spec 1 (length m20)); [lia|]. cbn [Nat.eqb].
  cbn [CPCA.and_then CPCA.returns]. unfold CPCA.returns in Hj. rewrite Hj.
  cbn [CPCA.and_then]. rewrite (item_nth m20 j Hjlt).
  cbn [CPCA.and_then CPCA.returns].
  rewrite (item_out_of_bounds [x] j) by (simpl; lia).
  reflexivity.
Qed.

Lemma normalize_peakplane_broadcast_index_error_witness :
  CPCA.normalize_peakplane (CPCA.Parts [1] [0; 2])
  = CPCA.raises CPCA.IndexOutOfBounds.
Proof.
  apply (normalize_peakplane_broadcast_index_error 1 [0; 2] 1).
  - simpl; lia.
  - cbn [map CPCA.argmax CPCA.argmax_from].
    destruct (Rlt_dec (1 ^ 2 + 0 ^ 2) (1 ^ 2 + 2 ^ 2)) as [_|H];
      [reflexivity|exfalso; lra].
  - lia.
Defined.

(** ** VideoReader *)

Section VideoReaderFacts.

Variable frame : Type.
Variable shape_of : frame -> list nat.
Variable as_grey : frame -> frame.
Variable invert : frame -> frame.
Variable subtract : frame -> frame -> VideoReader.outcome frame.
Variable negative_item : list frame -> Z -> VideoReader.outcome frame.
Variable frame_shape : list frame -> list nat.
Variable accumulator : Type.
Variable Accumulate : list nat -> accumulator.
Variable push : accumulator -> frame -> accumulator.
Variable get : accumulator -> frame.

Local Abbreviation reader := (VideoReader.reader frame).
Local Abbreviation getitem := (VideoReader.getitem frame as_grey negative_item).
Local Abbreviation next := (VideoReader.next frame as_grey negative_item).
Local Abbreviation get_image :=
  (VideoReader.get_image frame shape_of as_grey invert subtract negative_item).
Local Abbreviation for_each_push :=
  (VideoReader.for_each_push frame as_grey negative_item accumulator push).

Lemma getitem_in_range (self : reader) (pre rest : list frame) (x : frame) :
  VideoReader.video frame self = pre ++ x :: rest ->
  getitem self (Z.of_nat (length pre)) = VideoReader.Return (as_grey x).
Proof.
  intros Hv. unfold VideoReader.getitem, VideoReader.video_item.
  destruct (Z.ltb_spec (Z.of_nat (length pre)) 0); [lia|].
  rewrite Nat2Z.id, Hv, nth_error_app2 by lia.
  now rewrite Nat.sub_diag.
Qed.

Lemma getitem_past_the_end (self : reader) (idx : Z) :
  (VideoReader.len frame self <= idx)%Z ->
  getitem self idx = VideoReader.Raise VideoReader.IndexError.
Proof.
  unfold VideoReader.len. intros Hidx.
  unfold VideoReader.getitem, VideoReader.video_item.
  destruct (Z.ltb_spec idx 0); [lia|].
  rewrite (proj2 (nth_error_None _ _)) by lia. reflexivity.
Qed.

Lemma for_each_push_spec (rest : list frame) :
  forall (pre : list frame) (self : reader) (a : accumulator) (fuel : nat),
    VideoReader.video frame self = pre ++ rest ->
    VideoReader.current_frame frame self = (Z.of_nat (length pre) - 1)%Z ->
    (length rest < fuel)%nat ->
    for_each_push fuel self a
    = Some (VideoReader.Return
              (fold_left push (map as_grey rest) a,
               VideoReader.set_current frame self
                 (VideoReader.len frame self - 1))).
Proof.
  induction rest as [|x rest IH]; intros pre self a fuel Hv Hc Hfuel;
    (destruct fuel as [|fuel]; [simpl in Hfuel; lia|]);
    cbn [VideoReader.for_each_push]; unfold VideoReader.next; rewrite Hc;
    replace (Z.of_nat (length pre) - 1 + 1)%Z with (Z.of_nat (length pre))
      by lia.
  - rewrite getitem_past_the_end
      by (unfold VideoReader.len; rewrite Hv, app_nil_r; lia).
    cbn [fold_left map]. do 3 f_equal.
    unfold VideoReader.set_current, VideoReader.len.
    destruct self as [v b c]. cbn [VideoReader.video VideoReader.background
      VideoReader.current_frame] in *.
    rewrite app_nil_r in Hv. subst v c. reflexivity.
  - rewrite (getitem_in_range self pre rest x Hv).
    rewrite (IH (pre ++ [x])).
    + reflexivity.
    + cbn [VideoReader.set_current VideoReader.video]. rewrite Hv.
      now rewrite <- app_assoc.
    + cbn [VideoReader.set_current VideoReader.current_frame].
      rewrite length_app. simpl. lia.
    + simpl in Hfuel. lia.
Qed.

(** get_background reads the whole video through the iterator, whatever
    the position of the reader was: every frame is pushed once, in order,
    and the reader is left on the last frame. *)
Theorem get_background_reads_every_frame (self : reader) (fuel : nat) :
  (length (VideoReader.video frame self) < fuel)%nat ->
  VideoReader.get_background frame as_grey negative_item frame_shape
    accumulator Accumulate push get fuel self
  = Some (VideoReader.Return
            (get (fold_left push (map as_grey (VideoReader.video frame self))
                    (Accumulate
                       (VideoReader.frame_size frame frame_shape self))),
             VideoReader.set_current frame self
               (VideoReader.len frame self - 1))).
Proof.
  intros Hfuel. unfold VideoReader.get_background. cbv zeta.
  rewrite (for_each_push_spec (VideoReader.video frame self) []);
    [reflexivity|reflexivity|reflexivity|exact Hfuel].
Qed.

(** get_image cannot subtract the background from an image that is not
    inverted: [bg_inv] is bound only when [invert] is set, so the call
    never returns an image, and with a background of the right size it
    stops at the unbound name. *)
Theorem get_image_subtract_needs_invert (self : reader) :
  (forall image, get_image self false true <> VideoReader.Return image)
  /\ (forall bg image,
        VideoReader.background frame self = Some bg ->
        getitem self (VideoReader.current_frame frame self)
        = VideoReader.Return image ->
        shape_of bg = shape_of image ->
        get_image self false true
        = VideoReader.Raise VideoReader.UnboundLocalError).
Proof.
  unfold VideoReader.get_image. split.
  - intros image.
    destruct (getitem self _) as [img|e]; cbn [VideoReader.and_then];
      [|discriminate].
    destruct (VideoReader.background frame self) as [bg|]; [|discriminate].
    destruct (list_eq_dec _ _ _); discriminate.
  - intros bg image Hbg Hitem Hshape. rewrite Hitem, Hbg.
    cbn [VideoReader.and_then].
    destruct (list_eq_dec _ _ _) as [_|Hne]; [reflexivity|contradiction].
Qed.

(** set_frame_num accepts exactly the positions from 0 to the length of
    the video, the length included; at that position there is no frame:
    get_image raises IndexError and the iterator is exhausted. *)
Theorem set_frame_num_accepts_the_end (self : reader) :
  (forall idx,
     VideoReader.set_frame_num frame self idx
     = VideoReader.Raise VideoReader.AssertionError
     <-> (idx < 0 \/ VideoReader.len frame self < idx)%Z)
  /\ exists self',
       VideoReader.set_frame_num frame self (VideoReader.len frame self)
       = VideoReader.Return self'
       /\ next self' = VideoReader.Raise VideoReader.StopIteration
       /\ forall invert_flag subtract_background,
            get_image self' invert_flag subtract_background
            = VideoReader.Raise VideoReader.IndexError.
Proof.
  split.
  - intros idx. unfold VideoReader.set_frame_num.
    destruct (Z.leb_spec 0 idx); destruct (Z.leb_spec idx (VideoReader.len frame self));
      cbn [andb]; split; intros H'; try discriminate; try reflexivity; lia.
  - exists (VideoReader.set_current frame self (VideoReader.len frame self)).
    unfold VideoReader.set_frame_num.
    assert (H0 : (0 <= VideoReader.len frame self)%Z)
      by (unfold VideoReader.len; lia).
    destruct (Z.leb_spec 0 (VideoReader.len frame self)); [|lia].
    rewrite Z.leb_refl. cbn [andb]. split; [reflexivity|]. split.
    + unfold VideoReader.next.
      rewrite getitem_past_the_end; [reflexivity|].
      unfold VideoReader.len. cbn [VideoReader.set_current VideoReader.video
        VideoReader.current_frame]. lia.
    + intros i s. unfold VideoReader.get_image.
      rewrite getitem_past_the_end; [reflexivity|].
      unfold VideoReader.len. cbn [VideoReader.set_current VideoReader.video
        VideoReader.current_frame]. lia.
Qed.

End VideoReaderFacts.

Lemma get_background_reads_every_frame_witness :
  VideoReader.get_background nat S (fun _ _ => VideoReader.Raise VideoReader.IndexError)
    (fun _ => [2; 2; 3]%nat) (list nat) (fun _ => []) (fun a f => f :: a)
    (fun a => length a) 4
    {| VideoReader.video := [10; 20; 30]%nat;
       VideoReader.background := None;
       VideoReader.current_frame := 1 |}
  = Some (VideoReader.Return
            (3%nat,
             {| VideoReader.video := [10; 20; 30]%nat;
                VideoReader.background := None;
                VideoReader.current_frame := 2 |})).
Proof.
  apply (get_background_reads_every_frame nat S
           (fun _ _ => VideoReader.Raise VideoReader.IndexError)
           (fun _ => [2; 2; 3]%nat) (list nat) (fun _ => [])
           (fun a f => f :: a) (fun a => length a)
           {| VideoReader.video := [10; 20; 30]%nat;
              VideoReader.background := None;
              VideoReader.current_frame := 1 |} 4).
  simpl. lia.
Defined.

Lemma get_image_subtract_needs_invert_witness :
  VideoReader.get_image nat (fun _ => [2; 2]%nat) S (fun f => f)
    (fun a b => VideoReader.Return (a - b)%nat)
    (fun _ _ => VideoReader.Raise VideoReader.IndexError)
    {| VideoReader.video := [10; 20; 30]%nat;
       VideoReader.background := Some 5%nat;
       VideoReader.current_frame := 1 |} false true
  = VideoReader.Raise VideoReader.UnboundLocalError.
Proof.
  apply (proj2 (get_image_subtract_needs_invert nat (fun _ => [2; 2]%nat) S
                  (fun f => f) (fun a b => VideoReader.Return (a - b)%nat)
                  (fun _ _ => VideoReader.Raise VideoReader.IndexError)
                  {| VideoReader.video := [10; 20; 30]%nat;
                     VideoReader.background := Some 5%nat;
                     VideoReader.current_frame := 1 |}) 5%nat 21%nat);
    reflexivity.
Defined.
